(** * Session store of the Comfy-Cloud account widget

    A shallow embedding of [src/stores/comfyCloudAuthStore.ts] together
    with the payload types of [src/types/comfyCloudTypes.ts].

    The store is asynchronous JavaScript: every [await] is a point where
    the running function is suspended and other jobs of the event loop
    run.  Programs are therefore embedded as finite resumptions
    ([Prog]): a tree of synchronous effects on the reactive state whose
    suspension points ([Fetch], [Json]) are explicit.  Two semantics are
    given over the same trees:

    - [run], which executes one call to completion against a [Backend]
      that answers every request (no other job interleaves);
    - [step], the event loop: calls are started, suspended jobs are
      resumed one at a time with an arbitrary answer, and the token
      watcher is flushed after every synchronous segment. *)

From Stdlib Require Import ZArith String List Bool Lia Relations.
Import ListNotations.
Local Open Scope string_scope.
Local Open Scope Z_scope.

(** ** Payload types ([comfyCloudTypes.ts]) *)

(** JavaScript numbers are only stored and passed on by the store, never
    computed with; they are carried as integers. *)
Definition number := Z.

(** [Date] values, as milliseconds since the epoch. *)
Definition Date := Z.

Inductive SubscriptionTier := basic | pro | enterprise.

Inductive SubscriptionStatus := active | expired | cancelled.

Module ComfyCloudSubscription.
Record features_t := {
  gpu_access : bool;
  vip_models : bool;
  storage_limit_gb : number;
  concurrent_tasks : number
}.
Record t := {
  tier : SubscriptionTier;
  status : SubscriptionStatus;
  started_at : string;
  expires_at : string;
  auto_renew : bool;
  features : features_t
}.
End ComfyCloudSubscription.

Module ComfyCloudUser.
Record t := {
  id : number;
  username : string;
  email : string;
  tier : SubscriptionTier;
  balance : number;
  storage_used : number;
  storage_limit : number;
  created_at : string;
  subscription : option ComfyCloudSubscription.t
}.
End ComfyCloudUser.

Module ComfyCloudBalance.
Record t := {
  balance : number;
  currency : string;
  last_updated : string
}.
End ComfyCloudBalance.

Module LoginRequest.
Record t := { username : string; password : string }.
End LoginRequest.

Module LoginResponse.
Record t := { token : string; user : ComfyCloudUser.t }.
End LoginResponse.

Module RegisterRequest.
Record t := { username : string; email : string; password : string }.
End RegisterRequest.

Module RegisterResponse.
Record t := { token : string; user : ComfyCloudUser.t }.
End RegisterResponse.

Module ComfyCloudAuthHeader.
Record t := { Authorization : string }.
End ComfyCloudAuthHeader.

(** The store reads two payloads through [any]: the error payload of a
    non-success response, of which only [error] is read (and may be
    missing), and the payload of [/auth/refresh], of which only [token]
    is read.  A missing or null field is [None]. *)
Module ErrorData.
Record t := { error : option string }.
End ErrorData.

Module RefreshData.
Record t := { token : option string }.
End RefreshData.

(** ** Errors *)

(** [ComfyCloudAuthError] is the store's own error class; every other
    rejection (the [TypeError] of a failed [fetch], the [SyntaxError] of
    [response.json()]) is an [OtherError] with its name and message. *)
Inductive JsError :=
| ComfyCloudAuthError (message : string)
| OtherError (name message : string).

Definition error_message (e : JsError) : string :=
  match e with
  | ComfyCloudAuthError m => m
  | OtherError _ m => m
  end.

Inductive Result (A : Type) :=
| Ok (a : A)
| Err (e : JsError).
Arguments Ok {A} a.
Arguments Err {A} e.

(** ** The network interface *)

(** The body handed to [fetch]: [JSON.stringify] of a request object. *)
Inductive RequestBody :=
| LoginBody (r : LoginRequest.t)
| RegisterBody (r : RegisterRequest.t).

(** [Record<string, string>]: keys are unique, assignment overwrites. *)
Definition Headers := list (string * string).

Fixpoint assign (k v : string) (h : Headers) : Headers :=
  match h with
  | [] => [(k, v)]
  | (k', v') :: h' =>
      if String.eqb k k' then (k, v) :: h' else (k', v') :: assign k v h'
  end.

(** [{...a, ...b}]: the entries of [b] are assigned over [a]. *)
Definition spread (a b : Headers) : Headers :=
  fold_left (fun acc kv => assign (fst kv) (snd kv) acc) b a.

Record RequestInit := {
  method : option string;
  headers : Headers;
  body : option RequestBody
}.

Record Request := { url : string; init : RequestInit }.

(** A [Response] as far as the store looks at it before reading the
    body. [ok] is the Fetch definition: a status in 200..299. *)
Record Response := { status : Z }.

Definition ok (r : Response) : bool :=
  (200 <=? status r) && (status r <=? 299).

(** [fetch] either rejects (transport failure) or resolves. *)
Inductive FetchOutcome :=
| Rejected (e : JsError)
| Resolved (r : Response).

(** [response.json()] is a second suspension point: the body arrives
    after the headers.  The store assigns the parsed value a TypeScript
    type at each call site; [Kind] names those types. *)
Inductive Kind := KError | KUser | KBalance | KLogin | KRegister | KRefresh.

Definition payload (kd : Kind) : Type :=
  match kd with
  | KError => ErrorData.t
  | KUser => ComfyCloudUser.t
  | KBalance => ComfyCloudBalance.t
  | KLogin => LoginResponse.t
  | KRegister => RegisterResponse.t
  | KRefresh => RefreshData.t
  end.

Inductive JsonOutcome (T : Type) :=
| JsonRejected (e : JsError)
| JsonResolved (v : T).
Arguments JsonRejected {T} e.
Arguments JsonResolved {T} v.

(** ** The reactive state of the store *)

Record State := {
  token : option string;                          (* useLocalStorage *)
  currentUser : option ComfyCloudUser.t;
  isInitialized : bool;
  loading : bool;
  balance : option ComfyCloudBalance.t;
  lastBalanceUpdateTime : option Date;
  isFetchingBalance : bool
}.

Definition set_token (v : option string) (s : State) : State :=
  {| token := v; currentUser := currentUser s;
     isInitialized := isInitialized s; loading := loading s;
     balance := balance s;
     lastBalanceUpdateTime := lastBalanceUpdateTime s;
     isFetchingBalance := isFetchingBalance s |}.

Definition set_currentUser (v : option ComfyCloudUser.t) (s : State) : State :=
  {| token := token s; currentUser := v;
     isInitialized := isInitialized s; loading := loading s;
     balance := balance s;
     lastBalanceUpdateTime := lastBalanceUpdateTime s;
     isFetchingBalance := isFetchingBalance s |}.

Definition set_isInitialized (v : bool) (s : State) : State :=
  {| token := token s; currentUser := currentUser s;
     isInitialized := v; loading := loading s;
     balance := balance s;
     lastBalanceUpdateTime := lastBalanceUpdateTime s;
     isFetchingBalance := isFetchingBalance s |}.

Definition set_loading (v : bool) (s : State) : State :=
  {| token := token s; currentUser := currentUser s;
     isInitialized := isInitialized s; loading := v;
     balance := balance s;
     lastBalanceUpdateTime := lastBalanceUpdateTime s;
     isFetchingBalance := isFetchingBalance s |}.

Definition set_balance (v : option ComfyCloudBalance.t) (s : State) : State :=
  {| token := token s; currentUser := currentUser s;
     isInitialized := isInitialized s; loading := loading s;
     balance := v;
     lastBalanceUpdateTime := lastBalanceUpdateTime s;
     isFetchingBalance := isFetchingBalance s |}.

Definition set_lastBalanceUpdateTime (v : option Date) (s : State) : State :=
  {| token := token s; currentUser := currentUser s;
     isInitialized := isInitialized s; loading := loading s;
     balance := balance s;
     lastBalanceUpdateTime := v;
     isFetchingBalance := isFetchingBalance s |}.

Definition set_isFetchingBalance (v : bool) (s : State) : State :=
  {| token := token s; currentUser := currentUser s;
     isInitialized := isInitialized s; loading := loading s;
     balance := balance s;
     lastBalanceUpdateTime := lastBalanceUpdateTime s;
     isFetchingBalance := v |}.

(** JavaScript truthiness, [!!x], at the two types the store tests:
    an object reference is truthy unless null; a string is truthy unless
    null or empty. *)
Definition truthy_ref {T : Type} (x : option T) : bool :=
  match x with
  | Some _ => true
  | None => false
  end.

Definition truthy_string (x : option string) : bool :=
  match x with
  | Some s => negb (String.eqb s EmptyString)
  | None => false
  end.

(** The toast collaborator's messages. *)
Record ToastMessage := {
  severity : string;
  summary : string;
  detail : option string;
  life : option Z
}.

(** ** Asynchronous programs *)

(** A call of an [async] function is a tree of effects.  [Get] and [Set_]
    read and write the refs; [ToastAdd], [ConsoleError] and [NewDate]
    are the synchronous collaborators; [Void c k] is [void c()]: the
    callee is started and not awaited; [Fetch] and [Json] are the two
    [await]s on the environment, at which the caller is suspended. *)
Inductive Prog (A : Type) : Type :=
| Ret (a : A)
| Throw (e : JsError)
| Get (k : State -> Prog A)
| Set_ (f : State -> State) (k : Prog A)
| ToastAdd (m : ToastMessage) (k : Prog A)
| ConsoleError (label : string) (e : JsError) (k : Prog A)
| NewDate (k : Date -> Prog A)
| Void (child : Prog unit) (k : Prog A)
| Fetch (req : Request) (k : FetchOutcome -> Prog A)
| Json (kd : Kind) (r : Response) (k : JsonOutcome (payload kd) -> Prog A).
Arguments Ret {A} a.
Arguments Throw {A} e.
Arguments Get {A} k.
Arguments Set_ {A} f k.
Arguments ToastAdd {A} m k.
Arguments ConsoleError {A} label e k.
Arguments NewDate {A} k.
Arguments Void {A} child k.
Arguments Fetch {A} req k.
Arguments Json {A} kd r k.

Fixpoint bind {A B : Type} (p : Prog A) (f : A -> Prog B) : Prog B :=
  match p with
  | Ret a => f a
  | Throw e => Throw e
  | Get k => Get (fun s => bind (k s) f)
  | Set_ g k => Set_ g (bind k f)
  | ToastAdd m k => ToastAdd m (bind k f)
  | ConsoleError l e k => ConsoleError l e (bind k f)
  | NewDate k => NewDate (fun d => bind (k d) f)
  | Void c k => Void c (bind k f)
  | Fetch req k => Fetch req (fun o => bind (k o) f)
  | Json kd r k => Json kd r (fun o => bind (k o) f)
  end.

(** [try { p } catch (e) { h e }].  A job started with [void] inside [p]
    is not awaited, so its failure is not caught here. *)
Fixpoint try_catch {A : Type} (p : Prog A) (h : JsError -> Prog A) : Prog A :=
  match p with
  | Ret a => Ret a
  | Throw e => h e
  | Get k => Get (fun s => try_catch (k s) h)
  | Set_ g k => Set_ g (try_catch k h)
  | ToastAdd m k => ToastAdd m (try_catch k h)
  | ConsoleError l e k => ConsoleError l e (try_catch k h)
  | NewDate k => NewDate (fun d => try_catch (k d) h)
  | Void c k => Void c (try_catch k h)
  | Fetch req k => Fetch req (fun o => try_catch (k o) h)
  | Json kd r k => Json kd r (fun o => try_catch (k o) h)
  end.

(** [try { p } finally { fin }]: [fin] runs on both exits and the
    outcome of [p] is kept, unless [fin] itself throws. *)
Fixpoint try_finally {A : Type} (p : Prog A) (fin : Prog unit) : Prog A :=
  match p with
  | Ret a => bind fin (fun _ => Ret a)
  | Throw e => bind fin (fun _ => Throw e)
  | Get k => Get (fun s => try_finally (k s) fin)
  | Set_ g k => Set_ g (try_finally k fin)
  | ToastAdd m k => ToastAdd m (try_finally k fin)
  | ConsoleError l e k => ConsoleError l e (try_finally k fin)
  | NewDate k => NewDate (fun d => try_finally (k d) fin)
  | Void c k => Void c (try_finally k fin)
  | Fetch req k => Fetch req (fun o => try_finally (k o) fin)
  | Json kd r k => Json kd r (fun o => try_finally (k o) fin)
  end.

Declare Scope prog_scope.
Delimit Scope prog_scope with prog.
Bind Scope prog_scope with Prog.
Notation "x <- p ;; q" := (bind p (fun x => q))
  (at level 61, p at next level, right associativity) : prog_scope.
Notation "p ;; q" := (bind p (fun _ => q))
  (at level 61, right associativity) : prog_scope.
Local Open Scope prog_scope.

(** Reading and writing refs, and the awaited environment calls. *)
Definition read {T : Type} (field : State -> T) : Prog T :=
  Get (fun s => Ret (field s)).

Definition write (f : State -> State) : Prog unit :=
  Set_ f (Ret tt).

Definition toast_add (m : ToastMessage) : Prog unit :=
  ToastAdd m (Ret tt).

Definition console_error (label : string) (e : JsError) : Prog unit :=
  ConsoleError label e (Ret tt).

Definition new_Date : Prog Date :=
  NewDate (fun d => Ret d).

(** [await fetch(url, init)] *)
Definition fetch (u : string) (i : RequestInit) : Prog Response :=
  Fetch {| url := u; init := i |}
    (fun o => match o with
              | Rejected e => Throw e
              | Resolved r => Ret r
              end).

(** [await response.json()], read at the type named by [kd] *)
Definition json (kd : Kind) (r : Response) : Prog (payload kd) :=
  Json kd r
    (fun o => match o with
              | JsonRejected e => Throw e
              | JsonResolved v => Ret v
              end).

(** [void p()]: start [p], drop its promise. *)
Definition void {A : Type} (p : Prog A) : Prog unit :=
  Void (p ;; Ret tt) (Ret tt).

(** ** The world around the store *)

(** A suspended job: what it awaits and how it goes on. *)
Inductive Parked :=
| AwaitFetch (req : Request) (k : FetchOutcome -> Prog unit)
| AwaitJson (kd : Kind) (r : Response) (k : JsonOutcome (payload kd) -> Prog unit).

Record World := {
  refs : State;
  toasts : list ToastMessage;          (* toastStore, oldest first *)
  console : list (string * JsError);   (* console.error, oldest first *)
  requests : list Request;             (* every fetch issued, oldest first *)
  clock : Date;                        (* what new Date() returns now *)
  parked : list Parked;                (* jobs suspended at an await *)
  watched : option string              (* the token value the watcher saw last *)
}.

Definition with_refs (s : State) (w : World) : World :=
  {| refs := s; toasts := toasts w; console := console w;
     requests := requests w; clock := clock w; parked := parked w;
     watched := watched w |}.

Definition with_toast (m : ToastMessage) (w : World) : World :=
  {| refs := refs w; toasts := toasts w ++ [m]; console := console w;
     requests := requests w; clock := clock w; parked := parked w;
     watched := watched w |}.

Definition with_console (l : string) (e : JsError) (w : World) : World :=
  {| refs := refs w; toasts := toasts w; console := console w ++ [(l, e)];
     requests := requests w; clock := clock w; parked := parked w;
     watched := watched w |}.

Definition with_request (r : Request) (w : World) : World :=
  {| refs := refs w; toasts := toasts w; console := console w;
     requests := requests w ++ [r]; clock := clock w; parked := parked w;
     watched := watched w |}.

Definition with_clock (d : Date) (w : World) : World :=
  {| refs := refs w; toasts := toasts w; console := console w;
     requests := requests w; clock := d; parked := parked w;
     watched := watched w |}.

Definition with_parked (l : list Parked) (w : World) : World :=
  {| refs := refs w; toasts := toasts w; console := console w;
     requests := requests w; clock := clock w; parked := l;
     watched := watched w |}.

Definition with_watched (v : option string) (w : World) : World :=
  {| refs := refs w; toasts := toasts w; console := console w;
     requests := requests w; clock := clock w; parked := parked w;
     watched := v |}.

(** Where a job stands after a synchronous segment. *)
Inductive Status (A : Type) :=
| Finished (r : Result A)
| OnFetch (req : Request) (k : FetchOutcome -> Prog A)
| OnJson (kd : Kind) (r : Response) (k : JsonOutcome (payload kd) -> Prog A).
Arguments Finished {A} r.
Arguments OnFetch {A} req k.
Arguments OnJson {A} kd r k.

(** A suspended background job is parked; a settled one leaves nothing
    behind (a rejection nobody awaits is dropped). *)
Definition park (st : Status unit) (w : World) : World :=
  match st with
  | Finished _ => w
  | OnFetch req k => with_parked (parked w ++ [AwaitFetch req k]) w
  | OnJson kd r k => with_parked (parked w ++ [AwaitJson kd r k]) w
  end.

(** One synchronous segment: run [p] up to its next [await].  Calling
    [fetch] issues the request before the caller is suspended. *)
Fixpoint advance {A : Type} (p : Prog A) (w : World) : World * Status A :=
  match p with
  | Ret a => (w, Finished (Ok a))
  | Throw e => (w, Finished (Err e))
  | Get k => advance (k (refs w)) w
  | Set_ f k => advance k (with_refs (f (refs w)) w)
  | ToastAdd m k => advance k (with_toast m w)
  | ConsoleError l e k => advance k (with_console l e w)
  | NewDate k => advance (k (clock w)) w
  | Void c k => let (w1, st) := advance c w in advance k (park st w1)
  | Fetch req k => (with_request req w, OnFetch req k)
  | Json kd r k => (w, OnJson kd r k)
  end.

(** The backend as an oracle: an answer to every request, and a parsed
    body (or a rejection) for every response at every type. *)
Record Backend := {
  respond : Request -> FetchOutcome;
  parse : forall kd : Kind, Response -> JsonOutcome (payload kd)
}.

(** One call run to completion with no other job in between: each
    [await] is answered by the backend at once.  Jobs started with
    [void] are advanced to their first [await] and parked. *)
Fixpoint run {A : Type} (be : Backend) (p : Prog A) (w : World)
  : World * Result A :=
  match p with
  | Ret a => (w, Ok a)
  | Throw e => (w, Err e)
  | Get k => run be (k (refs w)) w
  | Set_ f k => run be k (with_refs (f (refs w)) w)
  | ToastAdd m k => run be k (with_toast m w)
  | ConsoleError l e k => run be k (with_console l e w)
  | NewDate k => run be (k (clock w)) w
  | Void c k => let (w1, st) := advance c w in run be k (park st w1)
  | Fetch req k => run be (k (respond be req)) (with_request req w)
  | Json kd r k => run be (k (parse be kd r)) w
  end.

(** ** The store ([comfyCloudAuthStore.ts]) *)

Definition STORAGE_KEY : string := "comfy_cloud_token".
Definition API_BASE : string := "/api".

(** [x || d] on a string that may be missing. *)
Definition or_else (x : option string) (d : string) : string :=
  match x with
  | Some s => if String.eqb s EmptyString then d else s
  | None => d
  end.

(** The [options] argument left out ([{}]) and [{ method: 'POST' }]. *)
Definition no_options : RequestInit :=
  {| method := None; headers := []; body := None |}.

Definition post_options : RequestInit :=
  {| method := Some "POST"; headers := []; body := None |}.

(** Computed *)
Definition isAuthenticated (s : State) : bool :=
  truthy_ref (currentUser s) && truthy_string (token s).

Definition userEmail (s : State) : option string :=
  option_map ComfyCloudUser.email (currentUser s).

Definition userId (s : State) : option number :=
  option_map ComfyCloudUser.id (currentUser s).

Definition userTier (s : State) : option SubscriptionTier :=
  option_map ComfyCloudUser.tier (currentUser s).

(** Helper: Build API URL *)
Definition buildApiUrl (path : string) : string := API_BASE ++ path.

(** The headers [fetchWithAuth] sends: the content type, the caller's
    own headers over it, and the bearer token when there is one. *)
Definition auth_headers (tok : option string) (options : RequestInit) : Headers :=
  let hs := spread [("Content-Type", "application/json")] (headers options) in
  match tok with
  | Some s => if String.eqb s EmptyString then hs
              else assign "Authorization" ("Bearer " ++ s) hs
  | None => hs
  end.

Definition auth_request (tok : option string) (u : string) (options : RequestInit)
  : Request :=
  {| url := u;
     init := {| method := method options;
                headers := auth_headers tok options;
                body := body options |} |}.

Section Store.

(** The i18n lookup [t] of [@/i18n] is not part of the store. *)
Variable t : string -> string.

(** Modelled from the spec: [toastErrorHandler] of
    [@/composables/useErrorHandling], which is not among the sources.
    It surfaces the message of the failure through the notification
    collaborator. *)
Definition toastErrorHandler (e : JsError) : Prog unit :=
  toast_add {| severity := "error"; summary := t "g.error";
               detail := Some (error_message e); life := None |}.

(** Modelled from the spec: [wrapWithErrorHandlingAsync] of
    [@/composables/useErrorHandling], which is not among the sources.
    A failure of the wrapped action is caught at the boundary and handed
    to the handler; the caller then gets [undefined] ([None]). *)
Definition wrapWithErrorHandlingAsync {A : Type}
    (action : Prog A) (errorHandler : JsError -> Prog unit) : Prog (option A) :=
  try_catch (a <- action ;; Ret (Some a))
            (fun e => errorHandler e ;; Ret None).

(** Helper: Make authenticated request *)
Definition fetchWithAuth (u : string) (options : RequestInit) : Prog Response :=
  tok <- read token ;;
  response <- fetch u {| method := method options;
                         headers := auth_headers tok options;
                         body := body options |} ;;
  if status response =? 401 then
    write (set_token None) ;;
    write (set_currentUser None) ;;
    Throw (ComfyCloudAuthError (t "toastMessages.userNotAuthenticated"))
  else Ret response.

(** Fetch user info *)
Definition fetchUserInfo : Prog ComfyCloudUser.t :=
  response <- fetchWithAuth (buildApiUrl "/user/info") no_options ;;
  if negb (ok response) then
    errorData <- json KError response ;;
    Throw (ComfyCloudAuthError
             (or_else (ErrorData.error errorData) "Failed to fetch user info"))
  else
    userData <- json KUser response ;;
    write (set_currentUser (Some userData)) ;;
    Ret userData.

(** Fetch balance *)
Definition fetchBalance : Prog (option ComfyCloudBalance.t) :=
  authenticated <- read isAuthenticated ;;
  if negb authenticated then Ret None
  else
    write (set_isFetchingBalance true) ;;
    try_finally
      (response <- fetchWithAuth (buildApiUrl "/user/balance") no_options ;;
       if negb (ok response) then
         if status response =? 404 then Ret None
         else
           errorData <- json KError response ;;
           Throw (ComfyCloudAuthError
                    (or_else (ErrorData.error errorData) "Failed to fetch balance"))
       else
         balanceData <- json KBalance response ;;
         write (set_balance (Some balanceData)) ;;
         now <- new_Date ;;
         write (set_lastBalanceUpdateTime (Some now)) ;;
         Ret (Some balanceData))
      (write (set_isFetchingBalance false)).

(** Login: the wrapped action, then the exported function *)
Definition login_action (username password : string) : Prog LoginResponse.t :=
  write (set_loading true) ;;
  try_finally
    (let requestBody :=
       {| LoginRequest.username := username;
          LoginRequest.password := password |} in
     response <- fetch (buildApiUrl "/auth/login")
                   {| method := Some "POST";
                      headers := [("Content-Type", "application/json")];
                      body := Some (LoginBody requestBody) |} ;;
     if negb (ok response) then
       errorData <- json KError response ;;
       Throw (ComfyCloudAuthError
                (or_else (ErrorData.error errorData) "Login failed"))
     else
       data <- json KLogin response ;;
       write (set_token (Some (LoginResponse.token data))) ;;
       write (set_currentUser (Some (LoginResponse.user data))) ;;
       toast_add {| severity := "success"; summary := t "auth.login.success";
                    detail := None; life := Some 3000 |} ;;
       void fetchBalance ;;
       Ret data)
    (write (set_loading false)).

Definition login (username password : string) : Prog (option LoginResponse.t) :=
  wrapWithErrorHandlingAsync (login_action username password) toastErrorHandler.

(** Register *)
Definition register_action (username email password : string)
  : Prog RegisterResponse.t :=
  write (set_loading true) ;;
  try_finally
    (let requestBody :=
       {| RegisterRequest.username := username;
          RegisterRequest.email := email;
          RegisterRequest.password := password |} in
     response <- fetch (buildApiUrl "/auth/register")
                   {| method := Some "POST";
                      headers := [("Content-Type", "application/json")];
                      body := Some (RegisterBody requestBody) |} ;;
     if negb (ok response) then
       errorData <- json KError response ;;
       Throw (ComfyCloudAuthError
                (or_else (ErrorData.error errorData) "Registration failed"))
     else
       data <- json KRegister response ;;
       write (set_token (Some (RegisterResponse.token data))) ;;
       write (set_currentUser (Some (RegisterResponse.user data))) ;;
       toast_add {| severity := "success"; summary := t "auth.register.success";
                    detail := None; life := Some 3000 |} ;;
       Ret data)
    (write (set_loading false)).

Definition register (username email password : string)
  : Prog (option RegisterResponse.t) :=
  wrapWithErrorHandlingAsync (register_action username email password)
                             toastErrorHandler.

(** Logout.  [fetchWithAuth(...).catch(() => {})] settles without a
    failure whatever the request does. *)
Definition logout_action : Prog unit :=
  write (set_loading true) ;;
  try_finally
    (tok <- read token ;;
     (if truthy_string tok then
        try_catch (fetchWithAuth (buildApiUrl "/auth/logout") post_options ;;
                   Ret tt)
                  (fun _ => Ret tt)
      else Ret tt) ;;
     write (set_token None) ;;
     write (set_currentUser None) ;;
     write (set_balance None) ;;
     write (set_lastBalanceUpdateTime None) ;;
     toast_add {| severity := "info"; summary := t "auth.logout.success";
                  detail := None; life := Some 3000 |})
    (write (set_loading false)).

Definition logout : Prog (option unit) :=
  wrapWithErrorHandlingAsync logout_action toastErrorHandler.

(** Refresh token *)
Definition refreshToken : Prog (option string) :=
  tok <- read token ;;
  if negb (truthy_string tok) then Ret None
  else
    try_catch
      (response <- fetchWithAuth (buildApiUrl "/auth/refresh") post_options ;;
       if negb (ok response) then Ret None
       else
         data <- json KRefresh response ;;
         write (set_token (RefreshData.token data)) ;;
         Ret (RefreshData.token data))
      (fun _ => Ret None).

(** Get auth header *)
Definition getAuthHeader : Prog (option ComfyCloudAuthHeader.t) :=
  tok <- read token ;;
  match tok with
  | Some s =>
      if String.eqb s EmptyString then Ret None
      else Ret (Some {| ComfyCloudAuthHeader.Authorization := "Bearer " ++ s |})
  | None => Ret None
  end.

(** Get auth token (for WebSocket) *)
Definition getAuthToken : Prog (option string) :=
  read token.

(** Watch token changes: the callback of [watch(token, ...)] *)
Definition watchToken (newToken : option string) : Prog unit :=
  if truthy_string newToken then
    try_catch
      (fetchUserInfo ;;
       write (set_isInitialized true))
      (fun error =>
         console_error "Failed to fetch user info:" error ;;
         write (set_token None) ;;
         write (set_isInitialized true))
  else
    write (set_currentUser None) ;;
    write (set_balance None) ;;
    write (set_isInitialized true).

End Store.

(** ** The event loop *)

Definition same_token (a b : option string) : bool :=
  match a, b with
  | Some x, Some y => String.eqb x y
  | None, None => true
  | _, _ => false
  end.

(** The [n]-th suspended job and the others. *)
Fixpoint take_parked (n : nat) (l : list Parked) : option (Parked * list Parked) :=
  match l, n with
  | [], _ => None
  | j :: l', O => Some (j, l')
  | j :: l', S n' =>
      match take_parked n' l' with
      | Some (x, rest) => Some (x, j :: rest)
      | None => None
      end
  end.

(** What the UI and other modules can call on the store. *)
Inductive Action :=
| ALogin (username password : string)
| ARegister (username email password : string)
| ALogout
| AFetchUserInfo
| AFetchBalance
| ARefreshToken
| AGetAuthHeader
| AGetAuthToken.

Section EventLoop.

Variable t : string -> string.

(** The watcher job ([watch(token, callback)], default flush): after a
    synchronous segment the callback is started if the token differs
    from the value the watcher saw last. *)
Definition flushWatcher (w : World) : World :=
  let newToken := token (refs w) in
  if same_token newToken (watched w) then w
  else
    let (w1, st) := advance (watchToken t newToken) (with_watched newToken w) in
    park st w1.

(** A fresh store: refs at their initial values, the token as persisted
    under [STORAGE_KEY]. *)
Definition initial_state (persisted : option string) : State :=
  {| token := persisted; currentUser := None; isInitialized := false;
     loading := false; balance := None; lastBalanceUpdateTime := None;
     isFetchingBalance := false |}.

Definition initial_world (persisted : option string) (now : Date) : World :=
  {| refs := initial_state persisted; toasts := []; console := [];
     requests := []; clock := now; parked := []; watched := persisted |}.

(** Store setup: [{ immediate: true }] starts the watcher callback on
    the persisted token during setup. *)
Definition useComfyCloudAuthStore (persisted : option string) (now : Date) : World :=
  let (w1, st) := advance (watchToken t persisted) (initial_world persisted now) in
  park st w1.

Definition perform (a : Action) : Prog unit :=
  match a with
  | ALogin u p => login t u p ;; Ret tt
  | ARegister u e p => register t u e p ;; Ret tt
  | ALogout => logout t ;; Ret tt
  | AFetchUserInfo => fetchUserInfo t ;; Ret tt
  | AFetchBalance => fetchBalance t ;; Ret tt
  | ARefreshToken => refreshToken t ;; Ret tt
  | AGetAuthHeader => getAuthHeader ;; Ret tt
  | AGetAuthToken => getAuthToken ;; Ret tt
  end.

(** A job runs one synchronous segment, is parked if it awaits again,
    and the watcher is flushed. *)
Definition resume (p : Prog unit) (w : World) : World :=
  let (w1, st) := advance p w in
  flushWatcher (park st w1).

Definition call (a : Action) (w : World) : World :=
  resume (perform a) w.

(** The [n]-th suspended job gets its answer from [be] and goes on. *)
Definition settle (be : Backend) (n : nat) (w : World) : option World :=
  match take_parked n (parked w) with
  | Some (AwaitFetch req k, rest) =>
      Some (resume (k (respond be req)) (with_parked rest w))
  | Some (AwaitJson kd r k, rest) =>
      Some (resume (k (parse be kd r)) (with_parked rest w))
  | None => None
  end.

(** The same, leaving the world alone when there is no [n]-th job. *)
Definition settled (be : Backend) (n : nat) (w : World) : World :=
  match settle be n w with
  | Some w' => w'
  | None => w
  end.

(** Answer the oldest suspended job, [fuel] times at most. *)
Fixpoint drain (be : Backend) (fuel : nat) (w : World) : World :=
  match fuel with
  | O => w
  | S fuel' =>
      match settle be O w with
      | Some w' => drain be fuel' w'
      | None => w
      end
  end.

Inductive step : World -> World -> Prop :=
| step_call (a : Action) (w : World) :
    step w (call a w)
| step_settle (be : Backend) (n : nat) (w w' : World) :
    settle be n w = Some w' ->
    step w w'
| step_tick (d : Date) (w : World) :
    clock w <= d ->
    step w (with_clock d w).

Definition reachable (w : World) : Prop :=
  exists persisted now,
    clos_refl_trans World step (useComfyCloudAuthStore persisted now) w.

End EventLoop.

(** ** Vocabulary of the properties *)

(** No token, no user, no balance. *)
Definition signed_out (s : State) : Prop :=
  token s = None /\ currentUser s = None /\ balance s = None.

(** The world after a 401: the request is on the wire, the session is
    gone. *)
Definition unauthorized (req : Request) (w : World) : World :=
  with_refs (set_currentUser None (set_token None (refs w)))
            (with_request req w).

(** A backend that cannot be reached: every request is rejected. *)
Definition unreachable_backend (e : JsError) : Backend :=
  {| respond := fun _ => Rejected e;
     parse := fun kd _ => JsonRejected e |}.

(** The calls that go through [fetchWithAuth]. *)
Inductive AuthenticatedCall :=
| ViaFetchUserInfo
| ViaFetchBalance
| ViaLogout
| ViaRefreshToken.

(** Path and options of the request of each call. *)
Definition call_endpoint (c : AuthenticatedCall) : string * RequestInit :=
  match c with
  | ViaFetchUserInfo => ("/user/info", no_options)
  | ViaFetchBalance => ("/user/balance", no_options)
  | ViaLogout => ("/auth/logout", post_options)
  | ViaRefreshToken => ("/auth/refresh", post_options)
  end.

(** Whether the call sends its request at all in state [s]. *)
Definition call_guard (c : AuthenticatedCall) (s : State) : bool :=
  match c with
  | ViaFetchUserInfo => true
  | ViaFetchBalance => isAuthenticated s
  | ViaLogout => truthy_string (token s)
  | ViaRefreshToken => truthy_string (token s)
  end.

Definition call_request (c : AuthenticatedCall) (s : State) : option Request :=
  if call_guard c s then
    Some (auth_request (token s) (buildApiUrl (fst (call_endpoint c)))
                       (snd (call_endpoint c)))
  else None.

(** Whether a failure of the request reaches the caller of the call. *)
Definition propagates (c : AuthenticatedCall) : bool :=
  match c with
  | ViaFetchUserInfo | ViaFetchBalance => true
  | ViaLogout | ViaRefreshToken => false
  end.

Definition login_request (username password : string) : Request :=
  {| url := buildApiUrl "/auth/login";
     init := {| method := Some "POST";
                headers := [("Content-Type", "application/json")];
                body := Some (LoginBody
                                {| LoginRequest.username := username;
                                   LoginRequest.password := password |}) |} |}.

(** The ways [login] fails, each with the error it fails with: the
    transport fails; the backend answers a non-success status, with a
    readable or an unreadable error payload; the backend answers a
    success status with an unreadable body. *)
Inductive login_failure (be : Backend) (req : Request) : JsError -> Prop :=
| transport_failure e :
    respond be req = Rejected e ->
    login_failure be req e
| non_success r d :
    respond be req = Resolved r ->
    ok r = false ->
    parse be KError r = JsonResolved d ->
    login_failure be req
      (ComfyCloudAuthError (or_else (ErrorData.error d) "Login failed"))
| non_success_unreadable r e :
    respond be req = Resolved r ->
    ok r = false ->
    parse be KError r = JsonRejected e ->
    login_failure be req e
| success_unreadable r e :
    respond be req = Resolved r ->
    ok r = true ->
    parse be KLogin r = JsonRejected e ->
    login_failure be req e.

Definition is_user_info (r : Request) : bool :=
  String.eqb (url r) (buildApiUrl "/user/info").

(** How often [fetchUserInfo] was called: it alone requests
    [/user/info], once per call. *)
Definition fetchUserInfo_calls (w : World) : nat :=
  length (filter is_user_info (requests w)).

(** What holds at every stage of the startup: one call of
    [fetchUserInfo] so far, and [isInitialized] exactly when no job is
    suspended any more. *)
Definition startup_stage (req : Request) (w : World) : Prop :=
  fetchUserInfo_calls w = 1%nat
  /\ requests w = [req]
  /\ (isInitialized (refs w) = true <-> parked w = []).

Section Vocabulary.

Variable t : string -> string.

Definition notAuthenticated : JsError :=
  ComfyCloudAuthError (t "toastMessages.userNotAuthenticated").

Definition call_prog (c : AuthenticatedCall) : Prog unit :=
  match c with
  | ViaFetchUserInfo => fetchUserInfo t ;; Ret tt
  | ViaFetchBalance => fetchBalance t ;; Ret tt
  | ViaLogout => logout t ;; Ret tt
  | ViaRefreshToken => refreshToken t ;; Ret tt
  end.

Definition logout_toast : ToastMessage :=
  {| severity := "info"; summary := t "auth.logout.success";
     detail := None; life := Some 3000 |}.

Definition error_toast (e : JsError) : ToastMessage :=
  {| severity := "error"; summary := t "g.error";
     detail := Some (error_message e); life := None |}.

End Vocabulary.

(** ** Concrete data for examples *)

Definition key_t : string -> string := fun key => key.

Definition alice : ComfyCloudUser.t :=
  {| ComfyCloudUser.id := 1;
     ComfyCloudUser.username := "alice";
     ComfyCloudUser.email := "alice@example.com";
     ComfyCloudUser.tier := pro;
     ComfyCloudUser.balance := 10;
     ComfyCloudUser.storage_used := 0;
     ComfyCloudUser.storage_limit := 100;
     ComfyCloudUser.created_at := "2024-01-01";
     ComfyCloudUser.subscription := None |}.

Definition ten_credits : ComfyCloudBalance.t :=
  {| ComfyCloudBalance.balance := 10;
     ComfyCloudBalance.currency := "USD";
     ComfyCloudBalance.last_updated := "2024-01-01" |}.

(** A backend that answers every request with [code], and whose bodies
    are the ones given. *)
Definition backend (code : Z) (tok : option string) (msg : option string) : Backend :=
  {| respond := fun _ => Resolved {| status := code |};
     parse := fun kd _ =>
       match kd return JsonOutcome (payload kd) with
       | KError => JsonResolved {| ErrorData.error := msg |}
       | KUser => JsonResolved alice
       | KBalance => JsonResolved ten_credits
       | KLogin =>
           JsonResolved {| LoginResponse.token := or_else tok EmptyString;
                           LoginResponse.user := alice |}
       | KRegister =>
           JsonResolved {| RegisterResponse.token := or_else tok EmptyString;
                           RegisterResponse.user := alice |}
       | KRefresh => JsonResolved {| RefreshData.token := tok |}
       end |}.

(** A backend that cannot be reached. *)
Definition offline : Backend :=
  {| respond := fun _ => Rejected (OtherError "TypeError" "Failed to fetch");
     parse := fun kd _ => JsonRejected (OtherError "SyntaxError" "Unexpected end of JSON input") |}.

(** Alice's session, resolved and with a balance. *)
Definition alice_session : World :=
  {| refs := {| token := Some "T1"; currentUser := Some alice;
                isInitialized := true; loading := false;
                balance := Some ten_credits;
                lastBalanceUpdateTime := Some 1000;
                isFetchingBalance := false |};
     toasts := []; console := []; requests := []; clock := 2000;
     parked := []; watched := Some "T1" |}.

(** A login answered with an empty token, then a profile fetch that
    succeeds: both refs are non-null and the session is not
    authenticated. *)
Definition empty_token_session : World :=
  let be := backend 200 (Some EmptyString) None in
  let w0 := useComfyCloudAuthStore key_t None 0 in
  let w1 := drain key_t be 2 (call key_t (ALogin "alice" "pw") w0) in
  drain key_t be 2 (call key_t AFetchUserInfo w1).

(** Alice logs in and logs out at once; the answer to the balance
    request that [login] started arrives after [logout] has completed. *)
Definition late_balance_session : World :=
  let be := backend 200 (Some "T1") None in
  let w0 := useComfyCloudAuthStore key_t None 0 in
  let w1 := drain key_t be 2 (call key_t (ALogin "alice" "pw") w0) in
  let w2 := settled key_t be 2 (call key_t ALogout w1) in
  settled key_t be 1 (settled key_t be 0 w2).

(** A store set up with the persisted token ["T1"]: the token is there,
    the profile is still being fetched. *)
Definition resolving_session : World :=
  useComfyCloudAuthStore key_t (Some "T1") 0.

(** ** Further vocabulary *)

(** [h[k]]: the value of a header, if it is set. *)
Fixpoint get_header (k : string) (h : Headers) : option string :=
  match h with
  | [] => None
  | (k', v) :: h' => if String.eqb k k' then Some v else get_header k h'
  end.

(** The functions of the store, as written in the source: the three
    wrapped actions, the fetching operations, the accessors and the
    watcher callback. *)
Inductive StoreFunction :=
| FLoginAction (username password : string)
| FRegisterAction (username email password : string)
| FLogoutAction
| FFetchUserInfo
| FFetchBalance
| FRefreshToken
| FGetAuthHeader
| FGetAuthToken
| FWatchToken (newToken : option string).

(** The most requests one call of a function issues: its own, and for
    [login] the one of the balance fetch it starts. *)
Definition max_requests (f : StoreFunction) : nat :=
  match f with
  | FLoginAction _ _ => 2
  | FGetAuthHeader | FGetAuthToken => 0
  | _ => 1
  end.

(** The functions that speak to the user. *)
Definition notifies (f : StoreFunction) : bool :=
  match f with
  | FLoginAction _ _ | FRegisterAction _ _ _ | FLogoutAction => true
  | _ => false
  end.

Section FurtherVocabulary.

Variable t : string -> string.

Definition function_body (f : StoreFunction) : Prog unit :=
  match f with
  | FLoginAction u p => login_action t u p ;; Ret tt
  | FRegisterAction u e p => register_action t u e p ;; Ret tt
  | FLogoutAction => logout_action t
  | FFetchUserInfo => fetchUserInfo t ;; Ret tt
  | FFetchBalance => fetchBalance t ;; Ret tt
  | FRefreshToken => refreshToken t ;; Ret tt
  | FGetAuthHeader => getAuthHeader ;; Ret tt
  | FGetAuthToken => getAuthToken ;; Ret tt
  | FWatchToken newToken => watchToken t newToken
  end.

End FurtherVocabulary.

(** [obeys I P p]: on every path through [p], and in the jobs it
    starts, each write to the refs keeps [I] and each request satisfies
    [P]. *)
Fixpoint obeys (I : State -> Prop) (P : Request -> Prop) {A : Type}
    (p : Prog A) {struct p} : Prop :=
  match p with
  | Ret _ => True
  | Throw _ => True
  | Get k => forall s, obeys I P (k s)
  | Set_ f k => (forall s, I s -> I (f s)) /\ obeys I P k
  | ToastAdd _ k => obeys I P k
  | ConsoleError _ _ k => obeys I P k
  | NewDate k => forall d, obeys I P (k d)
  | Void c k => obeys I P c /\ obeys I P k
  | Fetch req k => P req /\ forall o, obeys I P (k o)
  | Json _ _ k => forall o, obeys I P (k o)
  end.

Definition parked_obeys (I : State -> Prop) (P : Request -> Prop) (j : Parked)
  : Prop :=
  match j with
  | AwaitFetch _ k => forall o, obeys I P (k o)
  | AwaitJson _ _ k => forall o, obeys I P (k o)
  end.

Definition status_obeys (I : State -> Prop) (P : Request -> Prop)
    (st : Status unit) : Prop :=
  match st with
  | Finished _ => True
  | OnFetch _ k => forall o, obeys I P (k o)
  | OnJson _ _ k => forall o, obeys I P (k o)
  end.

(** A world whose suspended jobs all obey, and whose log holds only
    requests that satisfy [P]. *)
Definition orderly (I : State -> Prop) (P : Request -> Prop) (w : World) : Prop :=
  Forall (parked_obeys I P) (parked w) /\ Forall P (requests w).

(** The store has been initialized. *)
Definition initialized (s : State) : Prop := isInitialized s = true.

(** The six endpoints of the backend; credentials go to the endpoint
    they are for and nowhere else. *)
Definition store_endpoint (req : Request) : Prop :=
  In (url req)
     ["/api/auth/login"; "/api/auth/register"; "/api/auth/logout";
      "/api/auth/refresh"; "/api/user/info"; "/api/user/balance"]
  /\ match body (init req) with
     | Some (LoginBody _) => url req = "/api/auth/login"
     | Some (RegisterBody _) => url req = "/api/auth/register"
     | None => True
     end.

(** [keeps Q p]: no write of [p], or of a job it starts, breaks [Q]. *)
Definition keeps (Q : State -> Prop) {A : Type} (p : Prog A) : Prop :=
  obeys Q (fun _ => True) p.

(** [restores Q p]: on every path through [p] to its end there is a
    write that establishes [Q], after which [Q] is kept. *)
Fixpoint restores (Q : State -> Prop) {A : Type} (p : Prog A) {struct p} : Prop :=
  match p with
  | Ret _ => False
  | Throw _ => False
  | Get k => forall s, restores Q (k s)
  | Set_ f k => restores Q k \/ ((forall s, Q (f s)) /\ keeps Q k)
  | ToastAdd _ k => restores Q k
  | ConsoleError _ _ k => restores Q k
  | NewDate k => forall d, restores Q (k d)
  | Void c k => restores Q k
  | Fetch _ k => forall o, restores Q (k o)
  | Json _ _ k => forall o, restores Q (k o)
  end.

(** [tidy Q p]: a write of [p] that may break [Q] is followed, on every
    path, by one that restores it; so are the writes of the jobs [p]
    starts. *)
Fixpoint tidy (Q : State -> Prop) {A : Type} (p : Prog A) {struct p} : Prop :=
  match p with
  | Ret _ => True
  | Throw _ => True
  | Get k => forall s, tidy Q (k s)
  | Set_ f k => ((forall s, Q s -> Q (f s)) \/ restores Q k) /\ tidy Q k
  | ToastAdd _ k => tidy Q k
  | ConsoleError _ _ k => tidy Q k
  | NewDate k => forall d, tidy Q (k d)
  | Void c k => tidy Q c /\ tidy Q k
  | Fetch _ k => forall o, tidy Q (k o)
  | Json _ _ k => forall o, tidy Q (k o)
  end.

Definition parked_tidy (Q : State -> Prop) (j : Parked) : Prop :=
  match j with
  | AwaitFetch _ k => forall o, tidy Q (k o)
  | AwaitJson _ _ k => forall o, tidy Q (k o)
  end.

Definition parked_restores (Q : State -> Prop) (j : Parked) : Prop :=
  match j with
  | AwaitFetch _ k => forall o, restores Q (k o)
  | AwaitJson _ _ k => forall o, restores Q (k o)
  end.

Definition status_tidy (Q : State -> Prop) {A : Type} (st : Status A) : Prop :=
  match st with
  | Finished _ => True
  | OnFetch _ k => forall o, tidy Q (k o)
  | OnJson _ _ k => forall o, tidy Q (k o)
  end.

Definition status_restores (Q : State -> Prop) {A : Type} (st : Status A) : Prop :=
  match st with
  | Finished _ => False
  | OnFetch _ k => forall o, restores Q (k o)
  | OnJson _ _ k => forall o, restores Q (k o)
  end.

(** [Q] holds, or a suspended job will restore it. *)
Definition settling (Q : State -> Prop) (w : World) : Prop :=
  Q (refs w) \/ Exists (parked_restores Q) (parked w).

(** Nothing is shown as in progress. *)
Definition not_loading (s : State) : Prop := loading s = false.

Definition not_fetching_balance (s : State) : Prop :=
  isFetchingBalance s = false.

(** ** The widget ([ComfyCloudUserButton.vue]): dragging *)

Module Widget.

Section Numbers.

(** Coordinates and sizes are JavaScript numbers.  The drag code only
    compares and subtracts them, so they are kept abstract: the numbers
    other than NaN, with [<=], subtraction, the constants the code uses
    and the test for zero behind [n || d]. *)
Context {num : Type}.
Variable leb : num -> num -> bool.
Variable sub : num -> num -> num.
Variable zero n100 n200 : num.
Variable is_zero : num -> bool.

Record Position := { x : num; y : num }.

Record Size := { offsetWidth : num; offsetHeight : num }.

(** A mouse event carries its coordinates; a touch event carries a list
    of touches, of which the first is read. *)
Inductive PointerEvent :=
| MouseEvent (clientX clientY : num)
| TouchEvent (touches : list Position).

(** What the handlers read from the window: its inner size, and the
    widget element if it is mounted. *)
Record Viewport := {
  innerWidth : num;
  innerHeight : num;
  widgetRef : option Size
}.

Record Drag := {
  savedPosition : Position;       (* useLocalStorage *)
  isDragging : bool;
  dragOffset : Position;
  listening : bool                (* the four document listeners are set *)
}.

Definition Math_max (a b : num) : num := if leb a b then b else a.

Definition Math_min (a b : num) : num := if leb a b then a else b.

(** [n || d] *)
Definition or_default (n : option num) (d : num) : num :=
  match n with
  | Some v => if is_zero v then d else v
  | None => d
  end.

(** ['touches' in e ? e.touches[0].clientX : e.clientX], and the same
    for [clientY]; reading the first touch of an empty list throws. *)
Definition client (e : PointerEvent) : Result Position :=
  match e with
  | MouseEvent cx cy => Ok {| x := cx; y := cy |}
  | TouchEvent (p :: _) => Ok p
  | TouchEvent [] =>
      Err (OtherError "TypeError" "Cannot read properties of undefined")
  end.

Definition startDrag (e : PointerEvent) (d : Drag) : Drag * Result unit :=
  let d1 := {| savedPosition := savedPosition d; isDragging := true;
               dragOffset := dragOffset d; listening := listening d |} in
  match client e with
  | Err err => (d1, Err err)
  | Ok c =>
      ({| savedPosition := savedPosition d; isDragging := true;
          dragOffset := {| x := sub (x c) (x (savedPosition d));
                           y := sub (y c) (y (savedPosition d)) |};
          listening := true |}, Ok tt)
  end.

Definition maxX (v : Viewport) : num :=
  sub (innerWidth v) (or_default (option_map offsetWidth (widgetRef v)) n200).

Definition maxY (v : Viewport) : num :=
  sub (innerHeight v) (or_default (option_map offsetHeight (widgetRef v)) n100).

Definition onDrag (e : PointerEvent) (v : Viewport) (d : Drag) : Drag * Result unit :=
  if negb (isDragging d) then (d, Ok tt)
  else
    match client e with
    | Err err => (d, Err err)
    | Ok c =>
        let newX := sub (x c) (x (dragOffset d)) in
        let newY := sub (y c) (y (dragOffset d)) in
        let newX := Math_max zero (Math_min newX (maxX v)) in
        let newY := Math_max zero (Math_min newY (maxY v)) in
        ({| savedPosition := {| x := newX; y := newY |};
            isDragging := isDragging d; dragOffset := dragOffset d;
            listening := listening d |}, Ok tt)
    end.

Definition stopDrag (d : Drag) : Drag :=
  {| savedPosition := savedPosition d; isDragging := false;
     dragOffset := dragOffset d; listening := false |}.

End Numbers.

End Widget.

(** ** Basic facts about the two semantics *)

Lemma truthy_string_spec (x : option string) :
  truthy_string x = true <-> exists s, x = Some s /\ s <> EmptyString.
Proof.
  destruct x as [s|]; simpl.
  - rewrite negb_true_iff. split.
    + intro H. exists s. split; [reflexivity|].
      intro E. subst s. discriminate H.
    + intros [s' [E N]]. inversion E; subst s'.
      apply String.eqb_neq. exact N.
  - split; [discriminate|]. intros [s [E _]]. discriminate E.
Qed.

Lemma truthy_ref_spec {T : Type} (x : option T) :
  truthy_ref x = true <-> x <> None.
Proof.
  destruct x; simpl; split; congruence.
Qed.

Lemma same_token_spec (a b : option string) :
  same_token a b = true <-> a = b.
Proof.
  destruct a as [x|], b as [y|]; simpl; split; try congruence.
  - intro H. apply String.eqb_eq in H. congruence.
  - intro H. inversion H. apply String.eqb_refl.
Qed.

(** [run] is [advance], with each suspension answered by the backend. *)
Lemma run_advance {A : Type} (be : Backend) (p : Prog A) :
  forall w,
    run be p w =
    match advance p w with
    | (w1, Finished r) => (w1, r)
    | (w1, OnFetch req k) => run be (k (respond be req)) w1
    | (w1, OnJson kd r k) => run be (k (parse be kd r)) w1
    end.
Proof.
  induction p as [A a|A e|A k IH|A f k IH|A m k IH|A l e k IH|A k IH
                 |A c IHc k IH|A req k IH|A kd r k IH];
    intro w; simpl; auto.
  destruct (advance c w) as [w1 st]. apply IH.
Qed.

Section Reachability.

Variable t : string -> string.

Lemma reachable_init persisted now :
  reachable t (useComfyCloudAuthStore t persisted now).
Proof.
  exists persisted, now. apply rt_refl.
Qed.

Lemma reachable_step w w' :
  reachable t w -> step t w w' -> reachable t w'.
Proof.
  intros [persisted [now H]] S. exists persisted, now.
  eapply rt_trans; [exact H|]. apply rt_step. exact S.
Qed.

Lemma reachable_call a w :
  reachable t w -> reachable t (call t a w).
Proof.
  intro H. eapply reachable_step; [exact H|]. apply step_call.
Qed.

Lemma reachable_drain be n :
  forall w, reachable t w -> reachable t (drain t be n w).
Proof.
  induction n as [|n IH]; intros w H; simpl; [exact H|].
  destruct (settle t be 0 w) as [w'|] eqn:E; [|exact H].
  apply IH. eapply reachable_step; [exact H|].
  eapply step_settle. exact E.
Qed.

Lemma reachable_settled be n w :
  reachable t w -> reachable t (settled t be n w).
Proof.
  intro H. unfold settled.
  destruct (settle t be n w) as [w'|] eqn:E; [|exact H].
  eapply reachable_step; [exact H|]. eapply step_settle. exact E.
Qed.

End Reachability.

Lemma isAuthenticated_truthy_token (s : State) :
  isAuthenticated s = true -> exists tk, token s = Some tk /\ tk <> EmptyString.
Proof.
  unfold isAuthenticated. rewrite andb_true_iff.
  intros [_ H]. apply truthy_string_spec. exact H.
Qed.

(** ** Derived state *)

(** C1 (as amended): [isAuthenticated] is true exactly when
    [currentUser] is non-null and [token] is a non-empty string, in
    every state of the store. *)
Theorem isAuthenticated_iff_truthy (s : State) :
  isAuthenticated s = true <->
  (exists tk, token s = Some tk /\ tk <> EmptyString) /\ currentUser s <> None.
Proof.
  unfold isAuthenticated. rewrite andb_true_iff.
  rewrite truthy_string_spec, truthy_ref_spec. tauto.
Qed.

Lemma empty_token_session_reachable : reachable key_t empty_token_session.
Proof.
  unfold empty_token_session.
  apply reachable_drain, reachable_call, reachable_drain, reachable_call,
    reachable_init.
Qed.

Lemma empty_token_session_refs :
  token (refs empty_token_session) = Some EmptyString
  /\ currentUser (refs empty_token_session) = Some alice
  /\ parked empty_token_session = []
  /\ isAuthenticated (refs empty_token_session) = false.
Proof.
  vm_compute. repeat split; reflexivity.
Qed.

(** C1 (as stated) fails: a reachable state in which [token] and
    [currentUser] are both non-null while [isAuthenticated] is false. *)
Lemma isAuthenticated_non_null_counterexample :
  ~ (forall w, reachable key_t w ->
       (isAuthenticated (refs w) = true <->
        token (refs w) <> None /\ currentUser (refs w) <> None)).
Proof.
  intro H.
  destruct (H _ empty_token_session_reachable) as [_ H2].
  destruct empty_token_session_refs as [Ht [Hu [_ Ha]]].
  rewrite H2 in Ha; [discriminate|].
  rewrite Ht, Hu. split; discriminate.
Qed.

(** ** Equations of [run] *)

Ltac by_cases_of_prog :=
  simpl; auto;
  try match goal with
      | |- context [advance ?c ?w] =>
          destruct (advance c w) as [? ?]; auto
      end.

Lemma run_bind {A B : Type} (be : Backend) (p : Prog A) (f : A -> Prog B) :
  forall w,
    run be (bind p f) w =
    match run be p w with
    | (w1, Ok a) => run be (f a) w1
    | (w1, Err e) => (w1, Err e)
    end.
Proof.
  revert f. induction p; intros cont w; by_cases_of_prog.
Qed.

Lemma run_try_catch {A : Type} (be : Backend) (p : Prog A) (h : JsError -> Prog A) :
  forall w,
    run be (try_catch p h) w =
    match run be p w with
    | (w1, Ok a) => (w1, Ok a)
    | (w1, Err e) => run be (h e) w1
    end.
Proof.
  revert h. induction p; intros handler w; by_cases_of_prog.
Qed.

Lemma run_try_finally {A : Type} (be : Backend) (p : Prog A) (fin : Prog unit) :
  forall w,
    run be (try_finally p fin) w =
    match run be p w with
    | (w1, r) =>
        match run be fin w1 with
        | (w2, Ok _) => (w2, r)
        | (w2, Err e) => (w2, Err e)
        end
    end.
Proof.
  induction p; intro w; by_cases_of_prog;
    rewrite run_bind; destruct (run be fin w) as [w2 [[]|e']]; reflexivity.
Qed.

Section Calls.

Variable t : string -> string.

Lemma run_fetchWithAuth be u options w :
  run be (fetchWithAuth t u options) w =
  let req := auth_request (token (refs w)) u options in
  match respond be req with
  | Rejected e => (with_request req w, Err e)
  | Resolved r =>
      if status r =? 401 then (unauthorized req w, Err (notAuthenticated t))
      else (with_request req w, Ok r)
  end.
Proof.
  unfold fetchWithAuth, auth_request. cbn.
  destruct (respond be _) as [e|r]; cbn; [reflexivity|].
  destruct (status r =? 401); reflexivity.
Qed.

Lemma run_json be kd r w :
  run be (json kd r) w =
  match parse be kd r with
  | JsonRejected e => (w, Err e)
  | JsonResolved v => (w, Ok v)
  end.
Proof.
  cbn. destruct (parse be kd r); reflexivity.
Qed.

End Calls.

(** ** Properties of the session operations *)

(** Splits on everything the environment decides: the answer to a
    request, the parsed body, and the tests made on them. *)
Ltac split_outcomes :=
  repeat (cbn;
    match goal with
    | |- context [match respond ?be ?req with _ => _ end] =>
        destruct (respond be req) eqn:?
    | |- context [match parse ?be ?kd ?r with _ => _ end] =>
        destruct (parse be kd r) eqn:?
    | |- context [if ?c then _ else _] => destruct c eqn:?
    end);
  cbn.

Section Session.

Variable t : string -> string.

(** The watcher leaves a signed-out session signed out. *)
Lemma flushWatcher_signed_out w :
  signed_out (refs w) -> signed_out (refs (flushWatcher t w)).
Proof.
  intros [Ht [Hu Hb]]. unfold flushWatcher. rewrite Ht.
  destruct (same_token None (watched w)); [repeat split; assumption|].
  cbn. repeat split; assumption.
Qed.

(** One run of the watcher is enough: its first segment does not write
    [token], so afterwards the watcher has seen the current token and a
    second flush finds nothing to do. *)
Lemma flushWatcher_in_sync w :
  same_token (token (refs (flushWatcher t w))) (watched (flushWatcher t w))
  = true.
Proof.
  unfold flushWatcher.
  destruct (same_token (token (refs w)) (watched w)) eqn:E; [exact E|].
  unfold watchToken, fetchUserInfo, fetchWithAuth.
  destruct (truthy_string (token (refs w))); cbn;
    apply same_token_spec; reflexivity.
Qed.

Lemma flushWatcher_idempotent w :
  flushWatcher t (flushWatcher t w) = flushWatcher t w.
Proof.
  unfold flushWatcher at 1. rewrite flushWatcher_in_sync. reflexivity.
Qed.

(** [login] returns without a value only in one of the failure modes. *)
Lemma login_failure_complete be username password w w' :
  run be (login t username password) w = (w', Ok None) ->
  exists e, login_failure be (login_request username password) e.
Proof.
  unfold login, login_action, wrapWithErrorHandlingAsync, login_request.
  cbn.
  destruct (respond be _) as [e|r] eqn:R; cbn.
  - intros _. exists e. apply transport_failure. exact R.
  - destruct (ok r) eqn:O; cbn.
    + destruct (parse be KLogin r) as [e|d] eqn:P; cbn.
      * intros _. exists e. eapply success_unreadable; eassumption.
      * destruct (advance _ _) as [w1 st]. cbn. discriminate.
    + destruct (parse be KError r) as [e|d] eqn:P; cbn; intros _.
      * exists e. eapply non_success_unreadable; eassumption.
      * eexists. eapply non_success; eassumption.
Qed.

(** C2: a 401 answer to the request of any of the four calls that go
    through [fetchWithAuth] makes the helper raise the store's auth
    error and leaves [token] and [currentUser] null, for the helper and
    for the call as a whole. *)
Theorem unauthorized_response_clears_session
    (be : Backend) (w : World) (c : AuthenticatedCall) (req : Request)
    (r : Response) :
  call_request c (refs w) = Some req ->
  respond be req = Resolved r ->
  status r = 401 ->
  (exists w1,
      run be (fetchWithAuth t (buildApiUrl (fst (call_endpoint c)))
                (snd (call_endpoint c))) w
      = (w1, Err (notAuthenticated t))
      /\ token (refs w1) = None /\ currentUser (refs w1) = None)
  /\ (exists w',
      run be (call_prog t c) w
      = (w', if propagates c then Err (notAuthenticated t) else Ok tt)
      /\ requests w' = (requests w ++ [req])%list
      /\ token (refs w') = None /\ currentUser (refs w') = None).
Proof.
  unfold call_request. intros Hreq Hresp Hst.
  destruct (call_guard c (refs w)) eqn:G; [|discriminate].
  injection Hreq as <-.
  split.
  - rewrite run_fetchWithAuth. cbn zeta. rewrite Hresp, Hst. cbn.
    eexists. repeat split.
  - destruct c; cbn in G, Hresp;
      unfold call_prog, fetchUserInfo, fetchBalance, logout, logout_action,
        refreshToken, wrapWithErrorHandlingAsync;
      cbn; rewrite ?G; cbn; unfold auth_request in Hresp; cbn in Hresp;
      rewrite Hresp; cbn; rewrite Hst; cbn;
      eexists; repeat split.
Qed.

(** C3: the logout action never fails, and [logout] always completes
    without an error, with [token], [currentUser], [balance] (and its
    timestamp) null and one informational toast, from every state and
    whatever the backend does, an unreachable backend included; so does
    every login followed by a logout; and the last segment of [logout]
    clears the session whatever happened to the state while it awaited
    the server. *)
Theorem logout_clears_session :
  (forall be w, exists w',
      run be (logout_action t) w = (w', Ok tt)
      /\ signed_out (refs w'))
  /\ (forall be w, exists w',
      run be (logout t) w = (w', Ok (Some tt))
      /\ signed_out (refs w')
      /\ lastBalanceUpdateTime (refs w') = None
      /\ toasts w' = (toasts w ++ [logout_toast t])%list
      /\ signed_out (refs (flushWatcher t w')))
  /\ (forall e w, exists w',
      run (unreachable_backend e) (logout t) w = (w', Ok (Some tt))
      /\ signed_out (refs w')
      /\ toasts w' = (toasts w ++ [logout_toast t])%list)
  /\ (forall be1 be2 username password w,
      let w1 := flushWatcher t (fst (run be1 (login t username password) w)) in
      exists w2,
        run be2 (logout t) w1 = (w2, Ok (Some tt))
        /\ signed_out (refs w2)
        /\ signed_out (refs (flushWatcher t w2)))
  /\ (forall w,
      match advance (logout t) w with
      | (w1, Finished res) => res = Ok (Some tt) /\ signed_out (refs w1)
      | (w1, OnFetch req k) =>
          forall o w2, exists w3,
            advance (k o) w2 = (w3, Finished (Ok (Some tt)))
            /\ signed_out (refs w3)
      | (w1, OnJson _ _ _) => False
      end).
Proof.
  assert (L : forall be w, exists w',
      run be (logout t) w = (w', Ok (Some tt))
      /\ signed_out (refs w')
      /\ lastBalanceUpdateTime (refs w') = None
      /\ toasts w' = (toasts w ++ [logout_toast t])%list).
  { intros be w.
    unfold logout, logout_action, wrapWithErrorHandlingAsync.
    split_outcomes; eexists; repeat split. }
  split; [|split; [|split; [|split]]].
  - intros be w. unfold logout_action.
    split_outcomes; eexists; repeat split.
  - intros be w. destruct (L be w) as [w' [R [S [B T]]]].
    exists w'. repeat split; try assumption; try apply S.
    all: apply flushWatcher_signed_out; assumption.
  - intros e w. destruct (L (unreachable_backend e) w) as [w' [R [S [B T]]]].
    exists w'. repeat split; try assumption; apply S.
  - intros be1 be2 username password w w1.
    destruct (L be2 w1) as [w2 [R [S [B T]]]].
    exists w2. repeat split; try assumption; try apply S.
    all: apply flushWatcher_signed_out; assumption.
  - intro w. unfold logout, logout_action, wrapWithErrorHandlingAsync.
    cbn. destruct (truthy_string (token (refs w))); cbn.
    + intros [e|r] w2; cbn; [|destruct (status r =? 401); cbn];
        eexists; repeat split.
    + repeat split.
Qed.

(** C4: when [isAuthenticated] is false, [fetchBalance] returns null in
    its first synchronous segment and leaves the whole world as it was:
    no request is issued and neither [balance] nor
    [lastBalanceUpdateTime] (nor anything else) changes. *)
Theorem fetchBalance_unauthenticated (w : World) :
  isAuthenticated (refs w) = false ->
  advance (fetchBalance t) w = (w, Finished (Ok None))
  /\ (forall be, run be (fetchBalance t) w = (w, Ok None))
  /\ (forall be,
        let w' := fst (run be (fetchBalance t) w) in
        requests w' = requests w
        /\ balance (refs w') = balance (refs w)
        /\ lastBalanceUpdateTime (refs w') = lastBalanceUpdateTime (refs w)).
Proof.
  intro H.
  assert (R : forall be, run be (fetchBalance t) w = (w, Ok None)).
  { intro be. unfold fetchBalance. cbn. rewrite H. reflexivity. }
  split; [|split].
  - unfold fetchBalance. cbn. rewrite H. reflexivity.
  - exact R.
  - intro be. rewrite R. cbn. repeat split.
Qed.

(** C5: when the session is authenticated and the backend answers 404
    to the balance request, [fetchBalance] returns null without an error
    and [balance] and [lastBalanceUpdateTime] are as before (so are
    [token] and [currentUser]); the continuation after the 404 changes
    no ref but [isFetchingBalance], from whatever state it resumes in. *)
Theorem fetchBalance_not_found (be : Backend) (w : World) (r : Response) :
  isAuthenticated (refs w) = true ->
  respond be (auth_request (token (refs w)) (buildApiUrl "/user/balance")
                           no_options) = Resolved r ->
  status r = 404 ->
  (exists w',
      run be (fetchBalance t) w = (w', Ok None)
      /\ balance (refs w') = balance (refs w)
      /\ lastBalanceUpdateTime (refs w') = lastBalanceUpdateTime (refs w)
      /\ token (refs w') = token (refs w)
      /\ currentUser (refs w') = currentUser (refs w)
      /\ isFetchingBalance (refs w') = false
      /\ toasts w' = toasts w)
  /\ (exists w1 req k,
      advance (fetchBalance t) w = (w1, OnFetch req k)
      /\ forall w2,
          advance (k (Resolved r)) w2
          = (with_refs (set_isFetchingBalance false (refs w2)) w2,
             Finished (Ok None))).
Proof.
  intros H R S. unfold auth_request in R. cbn in R. split.
  - unfold fetchBalance. cbn. rewrite H. cbn. rewrite R. cbn.
    rewrite S. cbn. unfold ok. rewrite S. cbn.
    eexists. repeat split.
  - unfold fetchBalance. cbn. rewrite H. cbn.
    do 3 eexists. split; [reflexivity|].
    intro w2. cbn. rewrite S. cbn. unfold ok. rewrite S. cbn. reflexivity.
Qed.

(** C6: in every failure mode of [login] the wrapped action fails with
    the refs as before except that [loading] is false; the call returns
    to its caller without a value, and [token], [currentUser] and
    [balance] are unchanged.  Exactly one toast is added, of severity
    error, and its detail is the text of the failure: the backend's
    [error] text when the backend sent a non-empty one, ["Login failed"]
    when it sent none, and the message of the transport or parse error
    otherwise. *)
Theorem login_failure_leaves_session
    (be : Backend) (username password : string) (w : World) (e : JsError) :
  login_failure be (login_request username password) e ->
  exists w0 w',
    run be (login_action t username password) w = (w0, Err e)
    /\ refs w0 = set_loading false (refs w)
    /\ run be (login t username password) w = (w', Ok None)
    /\ toasts w' = (toasts w ++ [error_toast t e])%list
    /\ refs w' = set_loading false (refs w)
    /\ token (refs w') = token (refs w)
    /\ currentUser (refs w') = currentUser (refs w)
    /\ balance (refs w') = balance (refs w)
    /\ (forall r m,
          respond be (login_request username password) = Resolved r ->
          ok r = false ->
          parse be KError r = JsonResolved {| ErrorData.error := Some m |} ->
          m <> EmptyString ->
          e = ComfyCloudAuthError m)
    /\ (exists toast,
          toasts w' = (toasts w ++ [toast])%list
          /\ severity toast = "error"
          /\ match e with
             | ComfyCloudAuthError m => detail toast = Some m
             | OtherError _ m => detail toast = Some m
             end
          /\ (forall r m,
                respond be (login_request username password) = Resolved r ->
                ok r = false ->
                parse be KError r
                = JsonResolved {| ErrorData.error := Some m |} ->
                m <> EmptyString ->
                detail toast = Some m)
          /\ (forall r d,
                respond be (login_request username password) = Resolved r ->
                ok r = false ->
                parse be KError r = JsonResolved d ->
                truthy_string (ErrorData.error d) = false ->
                detail toast = Some "Login failed")
          /\ (forall name m,
                respond be (login_request username password)
                = Rejected (OtherError name m) ->
                detail toast = Some m)).
Proof.
  intro F.
  assert (M2 : forall r d,
          respond be (login_request username password) = Resolved r ->
          ok r = false ->
          parse be KError r = JsonResolved d ->
          truthy_string (ErrorData.error d) = false ->
          e = ComfyCloudAuthError "Login failed").
  { intros r d Hr Hok Hp Ht.
    destruct F as [e E|r' d' E O P|r' e E O P|r' e E O P];
      rewrite E in Hr; try discriminate;
      injection Hr as ->; try congruence.
    rewrite P in Hp. injection Hp as ->.
    destruct (ErrorData.error d) as [s|]; cbn in *; [|reflexivity].
    apply negb_false_iff in Ht. rewrite Ht. reflexivity. }
  assert (M3 : forall name m,
          respond be (login_request username password)
          = Rejected (OtherError name m) ->
          e = OtherError name m).
  { intros name m Hr.
    destruct F as [e E|r' d' E O P|r' e E O P|r' e E O P];
      rewrite E in Hr; try discriminate.
    injection Hr as ->. reflexivity. }
  assert (M : forall r m,
          respond be (login_request username password) = Resolved r ->
          ok r = false ->
          parse be KError r = JsonResolved {| ErrorData.error := Some m |} ->
          m <> EmptyString ->
          e = ComfyCloudAuthError m).
  { intros r m Hr Hok Hp Hm.
    destruct F as [e E|r' d E O P|r' e E O P|r' e E O P];
      rewrite E in Hr; try discriminate;
      injection Hr as ->; try congruence.
    rewrite P in Hp. injection Hp as ->. cbn.
    apply String.eqb_neq in Hm. rewrite Hm. reflexivity. }
  unfold login_request in F. cbn in F.
  destruct F as [e E|r d E O P|r e E O P|r e E O P];
    unfold login, login_action, wrapWithErrorHandlingAsync; cbn;
    rewrite E; cbn; rewrite ?O; cbn; rewrite ?P; cbn;
    do 2 eexists; repeat split; try assumption;
    (eexists; split; [reflexivity|]; cbn; repeat split; intros;
     try solve [reflexivity | destruct e; reflexivity];
     match goal with
     | Hr : respond _ _ = Resolved _, Ho : ok _ = false,
       Hp : parse _ _ _ = JsonResolved _, Hm : _ <> _ |- _ =>
         pose proof (M _ _ Hr Ho Hp Hm) as X
     | Hr : respond _ _ = Resolved _, Ho : ok _ = false,
       Hp : parse _ _ _ = JsonResolved _, Ht : truthy_string _ = false |- _ =>
         pose proof (M2 _ _ Hr Ho Hp Ht) as X
     | Hr : respond _ _ = Rejected _ |- _ =>
         pose proof (M3 _ _ Hr) as X
     end;
     first [rewrite X; reflexivity | discriminate X | congruence]).
Qed.

(** C7: [refreshToken] never fails towards its caller, whatever the
    state and the backend; it returns a token only if the backend
    answered with a success status and a body carrying that token, which
    is then the stored token; without a stored token, on a transport
    failure and on every non-success status (401 included) it returns
    null. *)
Theorem refreshToken_never_throws (be : Backend) (w : World) :
  let req := auth_request (token (refs w)) (buildApiUrl "/auth/refresh")
                          post_options in
  exists w' v,
    run be (refreshToken t) w = (w', Ok v)
    /\ (forall tk, v = Some tk ->
          token (refs w') = Some tk
          /\ truthy_string (token (refs w)) = true
          /\ exists r d,
               respond be req = Resolved r /\ ok r = true
               /\ parse be KRefresh r = JsonResolved d
               /\ RefreshData.token d = Some tk)
    /\ (truthy_string (token (refs w)) = false -> v = None /\ w' = w)
    /\ (forall e, respond be req = Rejected e -> v = None)
    /\ (forall r, respond be req = Resolved r -> ok r = false -> v = None)
    /\ (forall r, respond be req = Resolved r -> status r = 401 -> v = None).
Proof.
  unfold auth_request. cbn. unfold refreshToken.
  split_outcomes; do 2 eexists; (split; [reflexivity|]);
    repeat match goal with
      | H : negb _ = true |- _ => apply negb_true_iff in H
      | H : negb _ = false |- _ => apply negb_false_iff in H
      | H : (_ =? _) = false |- _ => apply Z.eqb_neq in H
      | H : (_ =? _) = true |- _ => apply Z.eqb_eq in H
      end;
    repeat split; intros;
    repeat match goal with
      | H1 : respond ?b ?q = _, H2 : respond ?b ?q = _ |- _ =>
          rewrite H1 in H2; try discriminate; injection H2 as <-
      end;
    cbn; try congruence; try discriminate;
    try (do 2 eexists; repeat split; eassumption).
Qed.

(** C9 (as amended): [getAuthHeader] and [getAuthToken] complete in one
    synchronous segment and leave the world as it was; they look at
    [token] alone. [getAuthToken] returns the raw token, null exactly
    when [token] is null; [getAuthHeader] returns null when [token] is
    null or empty and the Bearer header otherwise.  In an authenticated
    session both return a value. *)
Theorem auth_accessors_read_token (w : World) :
  advance getAuthToken w = (w, Finished (Ok (token (refs w))))
  /\ (exists h,
        advance getAuthHeader w = (w, Finished (Ok h))
        /\ (truthy_string (token (refs w)) = false -> h = None)
        /\ (forall s, token (refs w) = Some s -> s <> EmptyString ->
              h = Some {| ComfyCloudAuthHeader.Authorization := "Bearer " ++ s |}))
  /\ (token (refs w) = None ->
        advance getAuthToken w = (w, Finished (Ok None))
        /\ advance getAuthHeader w = (w, Finished (Ok None)))
  /\ (isAuthenticated (refs w) = true ->
        exists s,
          advance getAuthToken w = (w, Finished (Ok (Some s)))
          /\ advance getAuthHeader w
             = (w, Finished (Ok (Some {| ComfyCloudAuthHeader.Authorization :=
                                           "Bearer " ++ s |})))).
Proof.
  unfold getAuthToken, getAuthHeader. cbn.
  split; [reflexivity|]. split; [|split].
  - destruct (token (refs w)) as [s|] eqn:T; cbn.
    + destruct (String.eqb s EmptyString) eqn:E; cbn; eexists;
        (split; [reflexivity|]); split; intros; try discriminate;
        try reflexivity.
      * apply String.eqb_eq in E. congruence.
      * congruence.
    + eexists. split; [reflexivity|]. split; intros;
        [reflexivity|discriminate].
  - intro T. rewrite T. split; reflexivity.
  - intro A. apply isAuthenticated_truthy_token in A.
    destruct A as [s [T N]]. exists s. rewrite T. cbn.
    apply String.eqb_neq in N. rewrite N. split; reflexivity.
Qed.

(** C10: with a token stored (and seen by the watcher), a 401 answer to
    the refresh request makes [refreshToken] return null like any other
    failure, with [token] and [currentUser] cleared; [balance] is still
    there when the call returns and is cleared by the token watcher's
    next run. *)
Theorem refreshToken_unauthorized_logs_out
    (be : Backend) (w : World) (r : Response) :
  truthy_string (token (refs w)) = true ->
  watched w = token (refs w) ->
  respond be (auth_request (token (refs w)) (buildApiUrl "/auth/refresh")
                           post_options) = Resolved r ->
  status r = 401 ->
  exists w',
    run be (refreshToken t) w = (w', Ok None)
    /\ token (refs w') = None
    /\ currentUser (refs w') = None
    /\ balance (refs w') = balance (refs w)
    /\ signed_out (refs (flushWatcher t w'))
    /\ requests (flushWatcher t w') = requests w'.
Proof.
  intros T W R S. unfold auth_request in R. cbn in R.
  unfold refreshToken. cbn. rewrite T. cbn. rewrite R. cbn.
  rewrite S. cbn.
  eexists. split; [reflexivity|]. cbn. repeat split.
  all: unfold flushWatcher; cbn; rewrite W;
    destruct (token (refs w)) as [s|]; [|discriminate T]; cbn; reflexivity.
Qed.

(** *** Startup *)

Lemma drain_idle be n w :
  parked w = [] -> drain t be n w = w.
Proof.
  intro P. destruct n as [|n]; simpl; [reflexivity|].
  unfold settle. rewrite P. reflexivity.
Qed.

Lemma drain_S be n w :
  drain t be (S n) w = drain t be n (drain t be 1 w).
Proof.
  simpl. destruct (settle t be 0 w) as [w'|] eqn:E; [reflexivity|].
  destruct n as [|n]; simpl; [reflexivity|]. rewrite E. reflexivity.
Qed.

Arguments auth_headers : simpl never.

Ltac startup_loop H :=
  repeat (progress
            (cbn;
             unfold flushWatcher, settle, startup_stage, fetchUserInfo_calls,
               is_user_info;
             cbn; rewrite ?H, ?String.eqb_refl)).

Ltac startup_cases be H :=
  startup_loop H;
  destruct (respond be _) as [?e|r];
  [|startup_loop H; destruct (status r =? 401);
    [|startup_loop H; destruct (negb (ok r));
      [startup_loop H; destruct (parse be KError r)
      |startup_loop H; destruct (parse be KUser r)]]];
  startup_loop H.

Lemma startup_stages be tk now :
  tk <> EmptyString ->
  let w0 := useComfyCloudAuthStore t (Some tk) now in
  let req := auth_request (Some tk) (buildApiUrl "/user/info") no_options in
  startup_stage req w0
  /\ startup_stage req (drain t be 1 w0)
  /\ startup_stage req (drain t be 2 w0)
  /\ parked (drain t be 2 w0) = [].
Proof.
  intro H. apply String.eqb_neq in H.
  unfold useComfyCloudAuthStore, watchToken, fetchUserInfo, fetchWithAuth,
    auth_request.
  split; [|split; [|split]].
  - startup_loop H. repeat split; discriminate.
  - startup_cases be H; repeat split; discriminate.
  - startup_cases be H; repeat split; discriminate.
  - startup_cases be H; reflexivity.
Qed.

(** C8: a store set up with a persisted (non-empty) token has called
    [fetchUserInfo] exactly once, and is not yet initialized; however
    the backend answers, no second call is made at any stage,
    [isInitialized] becomes true exactly when the watcher job is done,
    which it is after the answer and its body have arrived; if that call
    of [fetchUserInfo] fails, [token] ends as null with [isInitialized]
    true. *)
Theorem startup_fetches_user_once (be : Backend) (tk : string) (now : Date) :
  tk <> EmptyString ->
  let w0 := useComfyCloudAuthStore t (Some tk) now in
  let req := auth_request (Some tk) (buildApiUrl "/user/info") no_options in
  isInitialized (refs w0) = false
  /\ requests w0 = [req]
  /\ (forall n,
        let w := drain t be n w0 in
        fetchUserInfo_calls w = 1%nat
        /\ requests w = [req]
        /\ (isInitialized (refs w) = true <-> parked w = []))
  /\ isInitialized (refs (drain t be 2 w0)) = true
  /\ (forall w1 e,
        run be (fetchUserInfo t) (initial_world (Some tk) now) = (w1, Err e) ->
        token (refs (drain t be 2 w0)) = None
        /\ currentUser (refs (drain t be 2 w0)) = None
        /\ isInitialized (refs (drain t be 2 w0)) = true)
  /\ (forall w1 u,
        run be (fetchUserInfo t) (initial_world (Some tk) now) = (w1, Ok u) ->
        token (refs (drain t be 2 w0)) = Some tk
        /\ currentUser (refs (drain t be 2 w0)) = Some u).
Proof.
  intros H w0 req.
  destruct (startup_stages be tk now H) as [S0 [S1 [S2 P2]]].
  fold w0 in S0, S1, S2, P2. fold req in S0, S1, S2.
  assert (I2 : isInitialized (refs (drain t be 2 w0)) = true).
  { apply S2. exact P2. }
  split; [|split; [|split; [|split; [|split]]]].
  - subst w0. apply String.eqb_neq in H.
    unfold useComfyCloudAuthStore, watchToken. startup_loop H. reflexivity.
  - apply S0.
  - intros [|[|n]]; [exact S0|exact S1|].
    cbv zeta. rewrite drain_S. rewrite drain_S.
    rewrite <- (drain_S be 1 w0). rewrite drain_idle by exact P2. exact S2.
  - exact I2.
  - intros w1 e. subst w0. apply String.eqb_neq in H.
    unfold useComfyCloudAuthStore, watchToken, fetchUserInfo, fetchWithAuth.
    startup_cases be H; intro R; try discriminate R; repeat split.
  - intros w1 u. subst w0. apply String.eqb_neq in H.
    unfold useComfyCloudAuthStore, watchToken, fetchUserInfo, fetchWithAuth.
    startup_cases be H; intro R; try discriminate R.
    injection R as _ <-. repeat split.
Qed.

End Session.

(** ** The claims at concrete inputs *)

(** C9 (as stated) fails: in a reachable state that is not
    authenticated, [getAuthHeader] and [getAuthToken] do not return
    null. *)
Lemma auth_accessors_unauthenticated_counterexample :
  ~ (forall w, reachable key_t w ->
       isAuthenticated (refs w) = false ->
       snd (advance getAuthHeader w) = Finished (Ok None)
       /\ snd (advance getAuthToken w) = Finished (Ok None)).
Proof.
  intro H.
  destruct (H resolving_session (reachable_init key_t (Some "T1") 0) eq_refl)
    as [_ H2].
  vm_compute in H2. discriminate H2.
Qed.

(** C2 at Alice's session: the balance request is answered 401. *)
Lemma unauthorized_response_clears_session_witness :
  call_request ViaFetchBalance (refs alice_session)
  = Some (auth_request (Some "T1") "/api/user/balance" no_options)
  /\ exists w',
      run (backend 401 None None) (call_prog key_t ViaFetchBalance) alice_session
      = (w', Err (notAuthenticated key_t))
      /\ token (refs w') = None /\ currentUser (refs w') = None.
Proof.
  split; [reflexivity|].
  destruct (unauthorized_response_clears_session key_t
              (backend 401 None None) alice_session ViaFetchBalance
              (auth_request (Some "T1") "/api/user/balance" no_options)
              {| status := 401 |} eq_refl eq_refl eq_refl)
    as [_ [w' [R [_ [T U]]]]].
  exists w'. split; [exact R|]. split; [exact T|exact U].
Defined.

(** C4 at a fresh store without a token. *)
Lemma fetchBalance_unauthenticated_witness :
  isAuthenticated (refs (initial_world None 0)) = false
  /\ advance (fetchBalance key_t) (initial_world None 0)
     = (initial_world None 0, Finished (Ok None)).
Proof.
  split; [reflexivity|].
  apply (fetchBalance_unauthenticated key_t (initial_world None 0)).
  reflexivity.
Defined.

(** C5 at Alice's session: the balance request is answered 404. *)
Lemma fetchBalance_not_found_witness :
  isAuthenticated (refs alice_session) = true
  /\ exists w',
      run (backend 404 None None) (fetchBalance key_t) alice_session
      = (w', Ok None)
      /\ balance (refs w') = Some ten_credits
      /\ lastBalanceUpdateTime (refs w') = Some 1000.
Proof.
  split; [reflexivity|].
  destruct (fetchBalance_not_found key_t (backend 404 None None) alice_session
              {| status := 404 |} eq_refl eq_refl eq_refl)
    as [[w' [R [B [L _]]]] _].
  exists w'. split; [exact R|]. split; [exact B|exact L].
Defined.

(** C6 at Alice's session: a login rejected with status 400 and the
    message "Invalid credentials". *)
Lemma login_failure_leaves_session_witness :
  login_failure (backend 400 None (Some "Invalid credentials"))
                (login_request "alice" "wrong")
                (ComfyCloudAuthError "Invalid credentials")
  /\ exists w',
      run (backend 400 None (Some "Invalid credentials"))
          (login key_t "alice" "wrong") alice_session
      = (w', Ok None)
      /\ toasts w' = [error_toast key_t (ComfyCloudAuthError "Invalid credentials")]
      /\ token (refs w') = Some "T1"
      /\ currentUser (refs w') = Some alice
      /\ balance (refs w') = Some ten_credits
      /\ exists toast,
          toasts w' = [toast]
          /\ severity toast = "error"
          /\ detail toast = Some "Invalid credentials".
Proof.
  assert (F : login_failure (backend 400 None (Some "Invalid credentials"))
                (login_request "alice" "wrong")
                (ComfyCloudAuthError "Invalid credentials")).
  { apply (non_success _ _ {| status := 400 |}
                       {| ErrorData.error := Some "Invalid credentials" |});
      reflexivity. }
  split; [exact F|].
  destruct (login_failure_leaves_session key_t _ "alice" "wrong" alice_session
              _ F)
    as [w0 [w' [_ [_ [R [T [_ [K [U [B [_ [toast [L [S [D _]]]]]]]]]]]]]]].
  exists w'. split; [exact R|]. split; [exact T|].
  split; [exact K|]. split; [exact U|]. split; [exact B|].
  exists toast. split; [exact L|]. split; [exact S|exact D].
Defined.

(** C8 for the persisted token "T1" and a backend that answers 401. *)
Lemma startup_fetches_user_once_witness :
  "T1" <> EmptyString
  /\ isInitialized (refs resolving_session) = false
  /\ fetchUserInfo_calls (drain key_t (backend 401 None None) 2 resolving_session)
     = 1%nat
  /\ isInitialized (refs (drain key_t (backend 401 None None) 2 resolving_session))
     = true.
Proof.
  assert (N : "T1" <> EmptyString) by (apply String.eqb_neq; reflexivity).
  split; [exact N|].
  destruct (startup_fetches_user_once key_t (backend 401 None None) "T1" 0 N)
    as [I0 [_ [S [I2 _]]]].
  split; [exact I0|]. split; [exact (proj1 (S 2%nat))|exact I2].
Defined.

(** C10 at Alice's session: the refresh request is answered 401. *)
Lemma refreshToken_unauthorized_logs_out_witness :
  truthy_string (token (refs alice_session)) = true
  /\ balance (refs alice_session) = Some ten_credits
  /\ exists w',
      run (backend 401 None None) (refreshToken key_t) alice_session
      = (w', Ok None)
      /\ token (refs w') = None
      /\ currentUser (refs w') = None
      /\ balance (refs w') = Some ten_credits
      /\ signed_out (refs (flushWatcher key_t w')).
Proof.
  split; [reflexivity|]. split; [reflexivity|].
  destruct (refreshToken_unauthorized_logs_out key_t (backend 401 None None)
              alice_session {| status := 401 |} eq_refl eq_refl eq_refl eq_refl)
    as [w' [R [T [U [B [S _]]]]]].
  exists w'. split; [exact R|]. split; [exact T|]. split; [exact U|].
  split; [exact B|exact S].
Defined.

(** ** Scenarios *)

(** login("alice", "pw") answered with token "T1" and a [pro] user: the
    store holds the token, [userTier] is [pro], and the balance fetch is
    under way. *)
Example login_scenario :
  let be := backend 200 (Some "T1") None in
  let w := fst (run be (login key_t "alice" "pw") (initial_world None 0)) in
  token (refs w) = Some "T1"
  /\ userTier (refs w) = Some pro
  /\ isFetchingBalance (refs w) = true
  /\ length (parked w) = 1%nat
  /\ requests w
     = [login_request "alice" "pw";
        auth_request (Some "T1") "/api/user/balance" no_options].
Proof.
  vm_compute. repeat split.
Qed.

(** An authenticated [fetchUserInfo] answered 401: token and user become
    null and the call raises the auth error. *)
Example fetchUserInfo_unauthorized_scenario :
  let res := run (backend 401 None None) (fetchUserInfo key_t) alice_session in
  snd res = Err (notAuthenticated key_t)
  /\ token (refs (fst res)) = None
  /\ currentUser (refs (fst res)) = None.
Proof.
  vm_compute. repeat split.
Qed.

(** [logout] while the backend is unreachable: the session is cleared
    and the caller sees no error. *)
Example logout_offline_scenario :
  let res := run offline (logout key_t) alice_session in
  snd res = Ok (Some tt)
  /\ signed_out (refs (fst res))
  /\ toasts (fst res) = [logout_toast key_t].
Proof.
  vm_compute. repeat split.
Qed.

(** The event loop allows the late answer: after [logout] has completed
    and cleared the session, the balance job started by [login] stores
    the balance it receives. *)
Lemma late_balance_session_reachable : reachable key_t late_balance_session.
Proof.
  unfold late_balance_session.
  apply reachable_settled, reachable_settled, reachable_settled,
    reachable_call, reachable_drain, reachable_call, reachable_init.
Qed.

Example late_balance_after_logout :
  token (refs late_balance_session) = None
  /\ currentUser (refs late_balance_session) = None
  /\ balance (refs late_balance_session) = Some ten_credits.
Proof.
  vm_compute. repeat split.
Qed.

(** * Further properties of the store

    Properties of the code beyond the claims above. *)

(** ** Request headers *)

Lemma get_header_assign_same k v h :
  get_header k (assign k v h) = Some v.
Proof.
  induction h as [|[k' v'] h IH]; simpl.
  - rewrite String.eqb_refl. reflexivity.
  - destruct (String.eqb k k') eqn:E; simpl.
    + rewrite String.eqb_refl. reflexivity.
    + rewrite E. exact IH.
Qed.

Lemma get_header_assign_other k k' v h :
  k <> k' -> get_header k (assign k' v h) = get_header k h.
Proof.
  intro N. apply String.eqb_neq in N.
  induction h as [|[k2 v2] h IH]; simpl.
  - rewrite N. reflexivity.
  - destruct (String.eqb k' k2) eqn:E; simpl.
    + apply String.eqb_eq in E. subst k2. rewrite N. reflexivity.
    + destruct (String.eqb k k2); [reflexivity|exact IH].
Qed.

Lemma get_header_app k (l : Headers) x :
  get_header k (l ++ [x])%list =
  match get_header k l with
  | Some v => Some v
  | None => get_header k [x]
  end.
Proof.
  induction l as [|[k' v'] l IH]; simpl; [destruct x; reflexivity|].
  destruct (String.eqb k k'); [reflexivity|exact IH].
Qed.

(** In [{...a, ...b}] the last entry of [b] for a key wins over [a]. *)
Lemma get_header_spread k b :
  forall a,
    get_header k (spread a b) =
    match get_header k (rev b) with
    | Some v => Some v
    | None => get_header k a
    end.
Proof.
  unfold spread.
  induction b as [|[k1 v1] b IH]; intro a; simpl; [reflexivity|].
  rewrite IH. rewrite get_header_app.
  destruct (get_header k (rev b)); [reflexivity|]. simpl.
  destruct (String.eqb k k1) eqn:E.
  - apply String.eqb_eq in E. subst k1. apply get_header_assign_same.
  - apply get_header_assign_other. apply String.eqb_neq. exact E.
Qed.

Section Requests.
Variable t : string -> string.

(** X1: the request [fetchWithAuth] issues keeps the caller's url,
    method and body; its [Authorization] header is the Bearer token
    whenever the stored token is non-empty, whatever the caller passed,
    and the caller's own otherwise; its [Content-Type] is the caller's
    if the caller set one and [application/json] if not. *)
Theorem fetchWithAuth_headers (w : World) (u : string) (options : RequestInit) :
  exists req k,
    advance (fetchWithAuth t u options) w = (with_request req w, OnFetch req k)
    /\ url req = u
    /\ method (init req) = method options
    /\ body (init req) = body options
    /\ (forall s, token (refs w) = Some s -> s <> EmptyString ->
          get_header "Authorization" (headers (init req))
          = Some ("Bearer " ++ s))
    /\ (truthy_string (token (refs w)) = false ->
          get_header "Authorization" (headers (init req))
          = get_header "Authorization" (rev (headers options)))
    /\ get_header "Content-Type" (headers (init req))
       = match get_header "Content-Type" (rev (headers options)) with
         | Some v => Some v
         | None => Some "application/json"
         end.
Proof.
  unfold fetchWithAuth, fetch, read. cbn [bind advance].
  do 2 eexists. split; [reflexivity|]. cbn [url init method body headers].
  repeat split.
  - intros s T N. rewrite T. unfold auth_headers.
    apply String.eqb_neq in N. rewrite N. apply get_header_assign_same.
  - intro F. unfold auth_headers.
    assert (E : get_header "Authorization"
                  (spread [("Content-Type", "application/json")] (headers options))
                = get_header "Authorization" (rev (headers options))).
    { rewrite get_header_spread.
      destruct (get_header "Authorization" (rev (headers options))); reflexivity. }
    destruct (token (refs w)) as [s|]; [|exact E].
    simpl in F. apply negb_false_iff in F. rewrite F. exact E.
  - unfold auth_headers.
    assert (E : get_header "Content-Type"
                  (spread [("Content-Type", "application/json")] (headers options))
                = match get_header "Content-Type" (rev (headers options)) with
                  | Some v => Some v
                  | None => Some "application/json"
                  end).
    { rewrite get_header_spread. reflexivity. }
    destruct (token (refs w)) as [s|]; [|exact E].
    destruct (String.eqb s EmptyString); [exact E|].
    rewrite get_header_assign_other; [exact E|discriminate].
Qed.
End Requests.

(** ** Outcomes of the fetching operations *)

Arguments auth_headers : simpl never.

(** Closes a goal about the answers of the backend once they are
    fixed: equal answers are identified, the rest is congruence. *)
Ltac settle_goal :=
  intros;
  repeat match goal with
    | H : Resolved _ = Resolved _ |- _ => injection H as <-
    | H : Rejected _ = Resolved _ |- _ => discriminate H
    | H : Resolved _ = Rejected _ |- _ => discriminate H
    | H : JsonResolved _ = JsonResolved _ |- _ => injection H as <-
    | H : JsonRejected _ = JsonResolved _ |- _ => discriminate H
    | H : JsonResolved _ = JsonRejected _ |- _ => discriminate H
    end;
  cbn; try reflexivity; try assumption; try congruence; try contradiction.


Section Outcomes.

Variable t : string -> string.

(** X2: [fetchUserInfo] issues exactly one request, never adds a toast
    and starts no job.  On success the profile replaces [currentUser]
    and no other ref changes; on a failure the refs are untouched,
    unless the answer was 401, which clears [token] and [currentUser];
    a non-success answer other than 401 fails with the backend's
    [error] text, or with the default text when there is none. *)
Theorem fetchUserInfo_outcomes (be : Backend) (w : World) :
  let req := auth_request (token (refs w)) (buildApiUrl "/user/info")
                          no_options in
  let (w', res) := run be (fetchUserInfo t) w in
  requests w' = (requests w ++ [req])%list
  /\ toasts w' = toasts w
  /\ parked w' = parked w
  /\ match res with
     | Ok u =>
         refs w' = set_currentUser (Some u) (refs w)
         /\ exists r, respond be req = Resolved r /\ ok r = true
                      /\ parse be KUser r = JsonResolved u
     | Err e =>
         (exists r, respond be req = Resolved r /\ status r = 401
                    /\ e = notAuthenticated t
                    /\ refs w' = set_currentUser None (set_token None (refs w)))
         \/ (refs w' = refs w
             /\ forall r, respond be req = Resolved r -> status r <> 401)
     end
  /\ (forall r d,
        respond be req = Resolved r -> status r <> 401 -> ok r = false ->
        parse be KError r = JsonResolved d ->
        res = Err (ComfyCloudAuthError
                     (or_else (ErrorData.error d) "Failed to fetch user info"))).
Proof.
  unfold auth_request, fetchUserInfo, fetchWithAuth. cbn.
  destruct (respond be _) as [e|r] eqn:R; cbn.
  - repeat split; [right; split; [reflexivity|]|]; settle_goal.
  - destruct (status r =? 401) eqn:S; cbn.
    + apply Z.eqb_eq in S.
      repeat split; [left; exists r; repeat split; exact S|settle_goal].
    + apply Z.eqb_neq in S.
      destruct (ok r) eqn:O; cbn.
      * destruct (parse be KUser r) as [e|u] eqn:P; cbn; repeat split;
          try solve [settle_goal].
        -- right. split; [reflexivity|settle_goal].
        -- exists r. repeat split; assumption.
      * destruct (parse be KError r) as [e|d] eqn:P; cbn; repeat split;
          try solve [settle_goal]; (right; split; [reflexivity|settle_goal]).
Qed.


(** X4: a successful [login] returns the payload, stores its token and
    user (so [userTier], [userEmail] and [userId] are the user's), ends
    with [loading] false, adds the one success toast and leaves a
    balance of an earlier session in place.  With a non-empty token the
    session is authenticated and the balance fetch has been started with
    that token: the request is out, the in-flight flag is set and the
    job is suspended; with an empty token it has not. *)
Theorem login_success
    (be : Backend) (username password : string) (w : World) (r : Response)
    (data : LoginResponse.t) :
  respond be (login_request username password) = Resolved r ->
  ok r = true ->
  parse be KLogin r = JsonResolved data ->
  let tk := LoginResponse.token data in
  let u := LoginResponse.user data in
  let breq := auth_request (Some tk) (buildApiUrl "/user/balance") no_options in
  let (w', res) := run be (login t username password) w in
  res = Ok (Some data)
  /\ token (refs w') = Some tk
  /\ currentUser (refs w') = Some u
  /\ userTier (refs w') = Some (ComfyCloudUser.tier u)
  /\ userEmail (refs w') = Some (ComfyCloudUser.email u)
  /\ userId (refs w') = Some (ComfyCloudUser.id u)
  /\ loading (refs w') = false
  /\ balance (refs w') = balance (refs w)
  /\ toasts w'
     = (toasts w ++ [{| severity := "success"; summary := t "auth.login.success";
                        detail := None; life := Some 3000 |}])%list
  /\ (tk <> EmptyString ->
        isAuthenticated (refs w') = true
        /\ requests w' = (requests w ++ [login_request username password; breq])%list
        /\ isFetchingBalance (refs w') = true
        /\ exists k, parked w' = (parked w ++ [AwaitFetch breq k])%list)
  /\ (tk = EmptyString ->
        requests w' = (requests w ++ [login_request username password])%list
        /\ isFetchingBalance (refs w') = isFetchingBalance (refs w)
        /\ parked w' = parked w).
Proof.
  intros R O P. unfold login_request in R. cbn in R.
  unfold login, login_action, wrapWithErrorHandlingAsync, fetchBalance,
    fetchWithAuth, auth_request.
  cbn. rewrite R. cbn. rewrite O. cbn. rewrite P. cbn.
  unfold isAuthenticated. cbn.
  destruct (String.eqb (LoginResponse.token data) EmptyString) eqn:E; cbn.
  - apply String.eqb_eq in E. repeat split; intros; try congruence.
  - apply String.eqb_neq in E. repeat split; intros; try congruence.
    + unfold isAuthenticated. cbn. apply String.eqb_neq in E. rewrite E.
      reflexivity.
    + rewrite <- app_assoc. reflexivity.
    + eexists. reflexivity.
Qed.

(** X5: [register] (its wrapped action) issues exactly one request and
    starts no job, and ends with [loading] false.  On success it stores
    the token and the user of the payload and adds the one success
    toast, without touching [balance]; on a failure no ref but
    [loading] has changed and no toast was added by the action. *)
Theorem register_outcomes
    (be : Backend) (username email password : string) (w : World) :
  let req :=
    {| url := buildApiUrl "/auth/register";
       init := {| method := Some "POST";
                  headers := [("Content-Type", "application/json")];
                  body := Some (RegisterBody
                                  {| RegisterRequest.username := username;
                                     RegisterRequest.email := email;
                                     RegisterRequest.password := password |}) |} |} in
  let (w', res) := run be (register_action t username email password) w in
  requests w' = (requests w ++ [req])%list
  /\ parked w' = parked w
  /\ loading (refs w') = false
  /\ match res with
     | Ok data =>
         refs w' = set_loading false
                     (set_currentUser (Some (RegisterResponse.user data))
                        (set_token (Some (RegisterResponse.token data)) (refs w)))
         /\ toasts w'
            = (toasts w ++ [{| severity := "success";
                               summary := t "auth.register.success";
                               detail := None; life := Some 3000 |}])%list
         /\ exists r, respond be req = Resolved r /\ ok r = true
                      /\ parse be KRegister r = JsonResolved data
     | Err e =>
         refs w' = set_loading false (refs w)
         /\ toasts w' = toasts w
     end.
Proof.
  unfold register_action. cbn.
  destruct (respond be _) as [e|r] eqn:R; cbn.
  - repeat split.
  - destruct (ok r) eqn:O; cbn.
    + destruct (parse be KRegister r) as [e|d] eqn:P; cbn; repeat split.
      exists r. repeat split; assumption.
    + destruct (parse be KError r) as [e|d] eqn:P; cbn; repeat split.
Qed.

(** X6: the watcher callback never fails and always ends with
    [isInitialized] true, without a toast.  For an empty or null new
    token it issues no request and clears [currentUser] and [balance];
    otherwise it calls [fetchUserInfo] once, and if that call fails it
    logs the failure and clears [token] (the profile, if any, is left
    for the watcher's next run). *)
Theorem watchToken_outcomes (be : Backend) (newToken : option string) (w : World) :
  let (w', res) := run be (watchToken t newToken) w in
  res = Ok tt
  /\ isInitialized (refs w') = true
  /\ toasts w' = toasts w
  /\ parked w' = parked w
  /\ (truthy_string newToken = false ->
        requests w' = requests w
        /\ console w' = console w
        /\ refs w' = set_isInitialized true
                       (set_balance None (set_currentUser None (refs w))))
  /\ (truthy_string newToken = true ->
        match run be (fetchUserInfo t) w with
        | (w1, Ok u) =>
            w' = with_refs (set_isInitialized true (refs w1)) w1
        | (w1, Err e) =>
            w' = with_refs (set_isInitialized true (set_token None (refs w1)))
                   (with_console "Failed to fetch user info:" e w1)
        end).
Proof.
  unfold watchToken.
  destruct (truthy_string newToken) eqn:T.
  - rewrite run_try_catch, run_bind.
    pose proof (fetchUserInfo_outcomes be w) as F. cbv zeta in F.
    destruct (run be (fetchUserInfo t) w) as [w1 [u|e]]; cbn;
      destruct F as [_ [Ft [Fp _]]];
      repeat split; try assumption; intros; discriminate.
  - cbn. repeat split; intros; discriminate.
Qed.

(** X7: with a token stored, a success answer to the refresh request
    makes [refreshToken] store and return the [token] of the body and
    change no other ref, without a toast; a body without a token is
    stored all the same, so the call returns null and the stored token
    is gone. *)
Theorem refreshToken_success
    (be : Backend) (w : World) (r : Response) (d : RefreshData.t) :
  truthy_string (token (refs w)) = true ->
  respond be (auth_request (token (refs w)) (buildApiUrl "/auth/refresh")
                           post_options) = Resolved r ->
  ok r = true ->
  parse be KRefresh r = JsonResolved d ->
  let (w', res) := run be (refreshToken t) w in
  res = Ok (RefreshData.token d)
  /\ refs w' = set_token (RefreshData.token d) (refs w)
  /\ toasts w' = toasts w
  /\ parked w' = parked w
  /\ (RefreshData.token d = None ->
        res = Ok None /\ token (refs w') = None
        /\ currentUser (refs w') = currentUser (refs w)).
Proof.
  intros T R O P. unfold auth_request in R. cbn in R.
  assert (S : (status r =? 401) = false).
  { apply Z.eqb_neq. intro S. unfold ok in O. rewrite S in O. discriminate O. }
  unfold refreshToken, fetchWithAuth. cbn. rewrite T. cbn. rewrite R. cbn.
  rewrite S. cbn. rewrite O. cbn. rewrite P. cbn.
  repeat split; cbn; congruence.
Qed.

(** X8: if the refreshed token is missing or empty (and the watcher had
    seen the stored one), the watcher's next run signs the session out:
    the token is no longer usable, [currentUser] and [balance] are null
    and no request is made. *)
Theorem refreshToken_without_token_signs_out
    (be : Backend) (w : World) (r : Response) (d : RefreshData.t) :
  truthy_string (token (refs w)) = true ->
  watched w = token (refs w) ->
  respond be (auth_request (token (refs w)) (buildApiUrl "/auth/refresh")
                           post_options) = Resolved r ->
  ok r = true ->
  parse be KRefresh r = JsonResolved d ->
  truthy_string (RefreshData.token d) = false ->
  let w' := flushWatcher t (fst (run be (refreshToken t) w)) in
  truthy_string (token (refs w')) = false
  /\ isAuthenticated (refs w') = false
  /\ currentUser (refs w') = None
  /\ balance (refs w') = None
  /\ requests w' = requests (fst (run be (refreshToken t) w)).
Proof.
  intros T W R O P F. unfold auth_request in R. cbn in R.
  assert (S : (status r =? 401) = false).
  { apply Z.eqb_neq. intro S. unfold ok in O. rewrite S in O. discriminate O. }
  assert (N : same_token (RefreshData.token d) (token (refs w)) = false).
  { destruct (same_token (RefreshData.token d) (token (refs w))) eqn:E;
      [|reflexivity].
    apply same_token_spec in E. congruence. }
  unfold refreshToken, fetchWithAuth. cbn. rewrite T. cbn. rewrite R. cbn.
  rewrite S. cbn. rewrite O. cbn. rewrite P. cbn.
  unfold flushWatcher. cbn. rewrite W, N.
  unfold watchToken. rewrite F. cbn.
  unfold isAuthenticated. cbn. rewrite F.
  repeat split.
Qed.

(** X9: a successful login with a new non-empty token makes the
    watcher fetch the profile: after the call and the watcher's run the
    log ends with the login request, the balance request and the
    profile request, the last two carrying the new token, and the refs
    are those the login left; a login that returns the token already
    stored starts no profile fetch. *)
Theorem login_triggers_profile_fetch
    (be : Backend) (username password : string) (w : World) (r : Response)
    (data : LoginResponse.t) :
  respond be (login_request username password) = Resolved r ->
  ok r = true ->
  parse be KLogin r = JsonResolved data ->
  LoginResponse.token data <> EmptyString ->
  watched w = token (refs w) ->
  let tk := LoginResponse.token data in
  let w1 := fst (run be (login t username password) w) in
  let w2 := flushWatcher t w1 in
  (token (refs w) <> Some tk ->
     requests w2
     = (requests w ++ [login_request username password;
                       auth_request (Some tk) (buildApiUrl "/user/balance") no_options;
                       auth_request (Some tk) (buildApiUrl "/user/info") no_options])%list
     /\ refs w2 = refs w1
     /\ length (parked w2) = (length (parked w) + 2)%nat)
  /\ (token (refs w) = Some tk -> w2 = w1).
Proof.
  intros R O P N W. unfold login_request in R. cbn in R.
  apply String.eqb_neq in N.
  unfold login, login_action, wrapWithErrorHandlingAsync, fetchBalance,
    fetchWithAuth, auth_request.
  cbn. rewrite R. cbn. rewrite O. cbn. rewrite P. cbn.
  unfold isAuthenticated. cbn. rewrite N. cbn.
  unfold flushWatcher. cbn. rewrite W.
  destruct (token (refs w)) as [s|] eqn:Tw; cbn; split.
  - intro D.
    assert (E : String.eqb (LoginResponse.token data) s = false).
    { apply String.eqb_neq. congruence. }
    rewrite E. unfold watchToken, fetchUserInfo, fetchWithAuth. cbn.
    rewrite N. cbn. repeat split.
    + rewrite <- !app_assoc. reflexivity.
    + rewrite !length_app. cbn. lia.
  - intro S. injection S as ->. rewrite String.eqb_refl. reflexivity.
  - intros _. unfold watchToken, fetchUserInfo, fetchWithAuth. cbn.
    rewrite N. cbn. repeat split.
    + rewrite <- !app_assoc. reflexivity.
    + rewrite !length_app. cbn. lia.
  - discriminate.
Qed.

(** X10: which request a call sends, and when.  [fetchUserInfo] always
    sends its request, even without a token; [fetchBalance] sends one
    only in an authenticated session; [logout] and [refreshToken] only
    with a non-empty token.  Whatever the backend answers, the call adds
    exactly that request to the log, or none. *)
Theorem call_sends_its_request (be : Backend) (c : AuthenticatedCall) (w : World) :
  requests (fst (run be (call_prog t c) w))
  = (requests w ++ match call_request c (refs w) with
                   | Some req => [req]
                   | None => []
                   end)%list.
Proof.
  unfold call_request.
  destruct c; cbn [call_guard call_endpoint fst snd call_prog];
    unfold auth_request, fetchUserInfo, fetchBalance, logout, logout_action,
      refreshToken, wrapWithErrorHandlingAsync, fetchWithAuth; cbn.
  - split_outcomes; reflexivity.
  - destruct (isAuthenticated (refs w)); split_outcomes;
      try reflexivity; symmetry; apply app_nil_r.
  - destruct (truthy_string (token (refs w))); split_outcomes;
      try reflexivity; symmetry; apply app_nil_r.
  - destruct (truthy_string (token (refs w))); split_outcomes;
      try reflexivity; symmetry; apply app_nil_r.
Qed.

(** X11: an answer is applied to whatever state it finds.  Once
    [fetchBalance] has sent its request, a success answer and its body,
    whenever they arrive and whatever has happened to the session since
    (a logout included), store the balance with the time of arrival and
    clear the in-flight flag; in the same way a late profile answer to
    [fetchUserInfo] replaces [currentUser]. *)
Theorem late_answers_are_applied (w : World) :
  (isAuthenticated (refs w) = true ->
   exists w1 req k,
     advance (fetchBalance t) w = (w1, OnFetch req k)
     /\ forall r b w2,
         ok r = true ->
         exists k2,
           advance (k (Resolved r)) w2 = (w2, OnJson KBalance r k2)
           /\ forall w3,
               advance (k2 (JsonResolved b)) w3
               = (with_refs
                    (set_isFetchingBalance false
                       (set_lastBalanceUpdateTime (Some (clock w3))
                          (set_balance (Some b) (refs w3)))) w3,
                  Finished (Ok (Some b))))
  /\ (exists w1 req k,
       advance (fetchUserInfo t) w = (w1, OnFetch req k)
       /\ forall r u w2,
           ok r = true ->
           exists k2,
             advance (k (Resolved r)) w2 = (w2, OnJson KUser r k2)
             /\ forall w3,
                 advance (k2 (JsonResolved u)) w3
                 = (with_refs (set_currentUser (Some u) (refs w3)) w3,
                    Finished (Ok u))).
Proof.
  assert (S : forall r, ok r = true -> (status r =? 401) = false).
  { intros r O. apply Z.eqb_neq. intro E. unfold ok in O. rewrite E in O.
    discriminate O. }
  split.
  - intro A. unfold fetchBalance, fetchWithAuth. cbn. rewrite A. cbn.
    do 3 eexists. split; [reflexivity|].
    intros r b w2 O. cbn. rewrite (S r O). cbn. rewrite O. cbn.
    eexists. split; [reflexivity|]. intro w3. reflexivity.
  - unfold fetchUserInfo, fetchWithAuth. cbn.
    do 3 eexists. split; [reflexivity|].
    intros r u w2 O. cbn. rewrite (S r O). cbn. rewrite O. cbn.
    eexists. split; [reflexivity|]. intro w3. reflexivity.
Qed.

End Outcomes.

(** ** What a call does to the log and to the toasts *)

Section Effects.

Variable t : string -> string.

Ltac extends_by :=
  first [ exists []; split; [symmetry; apply app_nil_r|cbn; lia]
        | eexists; split; [rewrite <- ?app_assoc; reflexivity|cbn; lia] ].

(** X12: no function of the store retries or fans out: one call issues
    at most one request, a login at most two (its own and the balance
    fetch it starts), the accessors none.  Only the login, register and
    logout actions add a toast, exactly one when they succeed and none
    when they fail (the failure is left to the error handler); only the
    watcher callback writes to the console. *)
Theorem store_functions_effects (be : Backend) (f : StoreFunction) (w : World) :
  let (w', res) := run be (function_body t f) w in
  (exists l, requests w' = (requests w ++ l)%list
             /\ (length l <= max_requests f)%nat)
  /\ (exists l, toasts w' = (toasts w ++ l)%list
                /\ length l = match res with
                              | Ok _ => if notifies f then 1%nat else 0%nat
                              | Err _ => 0%nat
                              end)
  /\ (match f with FWatchToken _ => True | _ => console w' = console w end).
Proof.
  destruct f; cbn [function_body max_requests notifies];
    unfold login_action, register_action, logout_action, fetchUserInfo,
      fetchBalance, refreshToken, getAuthHeader, getAuthToken, watchToken,
      fetchWithAuth;
    split_outcomes;
    try match goal with
        | |- context [match token ?s with _ => _ end] =>
            destruct (token s); split_outcomes
        end;
    cbn; (split; [extends_by|split; [extends_by|try exact I; try reflexivity]]).
Qed.

End Effects.

(** ** Invariants of the event loop *)

Section Obedience.

Variable I : State -> Prop.
Variable P : Request -> Prop.

Lemma obeys_bind {A B : Type} (p : Prog A) (f : A -> Prog B) :
  obeys I P p -> (forall a, obeys I P (f a)) -> obeys I P (bind p f).
Proof.
  revert f. induction p; intros cont Hp Hf; simpl in *; intuition auto.
Qed.

Lemma obeys_try_catch {A : Type} (p : Prog A) (h : JsError -> Prog A) :
  obeys I P p -> (forall e, obeys I P (h e)) -> obeys I P (try_catch p h).
Proof.
  revert h. induction p; intros handler Hp Hh; simpl in *; intuition auto.
Qed.

Lemma obeys_try_finally {A : Type} (p : Prog A) (fin : Prog unit) :
  obeys I P p -> obeys I P fin -> obeys I P (try_finally p fin).
Proof.
  induction p; intros Hp Hf; simpl in *; intuition auto;
    apply obeys_bind; simpl; auto.
Qed.

Lemma park_orderly (st : Status unit) (w : World) :
  status_obeys I P st -> orderly I P w -> orderly I P (park st w).
Proof.
  intros Hs [Hp Hr]. destruct st; simpl; [split; assumption| |];
    (split; [|exact Hr]); simpl; apply Forall_app; split; auto.
Qed.

(** A synchronous segment of an obeying program keeps the world
    orderly and [I], and what is left of the program obeys. *)
Lemma advance_obeys {A : Type} (p : Prog A) :
  forall w,
    obeys I P p -> orderly I P w ->
    orderly I P (fst (advance p w))
    /\ (I (refs w) -> I (refs (fst (advance p w))))
    /\ match snd (advance p w) with
       | Finished _ => True
       | OnFetch _ k => forall o, obeys I P (k o)
       | OnJson _ _ k => forall o, obeys I P (k o)
       end.
Proof.
  induction p as [A a|A e|A k IH|A f k IH|A m k IH|A l e k IH|A k IH
                 |A c IHc k IHk|A req k IH|A kd r k IH];
    intros w Hp Hw; simpl in *.
  - auto.
  - auto.
  - apply IH; auto.
  - destruct Hp as [Hf Hk].
    destruct (IH (with_refs (f (refs w)) w) Hk Hw) as [Ho [Hi Hs]].
    split; [exact Ho|]. split; [|exact Hs].
    intro Hw0. apply Hi. simpl. apply Hf. exact Hw0.
  - exact (IH (with_toast m w) Hp Hw).
  - exact (IH (with_console l e w) Hp Hw).
  - apply IH; auto.
  - destruct Hp as [Hc Hk].
    destruct (IHc w Hc Hw) as [Ho [Hi Hs]].
    destruct (advance c w) as [w1 st]. simpl in *.
    assert (Hpark : orderly I P (park st w1)).
    { apply park_orderly; [|exact Ho]. destruct st; simpl; auto. }
    destruct (IHk (park st w1) Hk Hpark) as [Ho2 [Hi2 Hs2]].
    split; [exact Ho2|]. split; [|exact Hs2].
    intro Hw0. apply Hi2. destruct st; simpl; auto.
  - destruct Hp as [Hreq Hk]. destruct Hw as [Hpk Hrq].
    split; [split; simpl; [exact Hpk|]|split; [auto|exact Hk]].
    apply Forall_app. split; auto.
  - auto.
Qed.

End Obedience.

Section LoopInvariants.

Variable t : string -> string.

Ltac obey :=
  repeat (cbn; intros;
    match goal with
    | |- _ /\ _ => split
    | |- True => exact Logic.I
    | H : ?x = true |- ?x = true => exact H
    | |- true = true => reflexivity
    | |- store_endpoint _ =>
        unfold store_endpoint; cbn; split; [tauto|try reflexivity; exact Logic.I]
    | |- context [if ?c then _ else _] => destruct c
    | |- context [match ?x with _ => _ end] => is_var x; destruct x
    | |- context [match token ?s with _ => _ end] => destruct (token s)
    end).

Lemma watchToken_obeys newToken :
  obeys initialized store_endpoint (watchToken t newToken).
Proof.
  unfold watchToken, fetchUserInfo, fetchWithAuth, initialized. obey.
Qed.

Lemma perform_obeys a :
  obeys initialized store_endpoint (perform t a).
Proof.
  destruct a;
    unfold perform, login, login_action, register, register_action, logout,
      logout_action, wrapWithErrorHandlingAsync, toastErrorHandler,
      fetchUserInfo, fetchBalance, refreshToken, getAuthHeader, getAuthToken,
      fetchWithAuth, initialized;
    obey.
Qed.

Local Abbreviation well_kept := (orderly initialized store_endpoint).

Lemma take_parked_Forall (Q : Parked -> Prop) n :
  forall l j rest,
    Forall Q l -> take_parked n l = Some (j, rest) -> Q j /\ Forall Q rest.
Proof.
  induction n as [|n IH]; intros [|x l] j rest F E; simpl in E;
    try discriminate.
  - injection E as <- <-. inversion F; subst. split; assumption.
  - destruct (take_parked n l) as [[y rest']|] eqn:T; [|discriminate].
    injection E as <- <-. inversion F; subst.
    destruct (IH l y rest' H2 T) as [Qy Fr].
    split; [exact Qy|]. constructor; assumption.
Qed.

Lemma advance_park_well_kept (p : Prog unit) (w : World) :
  obeys initialized store_endpoint p -> well_kept w ->
  let w' := park (snd (advance p w)) (fst (advance p w)) in
  well_kept w' /\ (initialized (refs w) -> initialized (refs w')).
Proof.
  intros Hp Hw.
  destruct (advance_obeys initialized store_endpoint p w Hp Hw)
    as [Ho [Hi Hs]].
  cbv zeta. split.
  - apply park_orderly; [|exact Ho].
    destruct (snd (advance p w)); simpl; auto.
  - intro H. destruct (snd (advance p w)); simpl; auto.
Qed.

Lemma flushWatcher_well_kept (w : World) :
  well_kept w ->
  well_kept (flushWatcher t w)
  /\ (initialized (refs w) -> initialized (refs (flushWatcher t w))).
Proof.
  intro Hw. unfold flushWatcher.
  destruct (same_token (token (refs w)) (watched w)); [split; auto|].
  pose proof (advance_park_well_kept (watchToken t (token (refs w)))
                (with_watched (token (refs w)) w)
                (watchToken_obeys (token (refs w))) Hw) as H.
  cbv zeta in H.
  destruct (advance (watchToken t (token (refs w)))
                    (with_watched (token (refs w)) w)) as [w1 st].
  exact H.
Qed.

Lemma resume_well_kept (p : Prog unit) (w : World) :
  obeys initialized store_endpoint p -> well_kept w ->
  well_kept (resume t p w)
  /\ (initialized (refs w) -> initialized (refs (resume t p w))).
Proof.
  intros Hp Hw. unfold resume.
  pose proof (advance_park_well_kept p w Hp Hw) as H. cbv zeta in H.
  destruct (advance p w) as [w1 st]. simpl in H. destruct H as [Ho Hi].
  destruct (flushWatcher_well_kept (park st w1) Ho) as [Ho2 Hi2].
  split; auto.
Qed.

Lemma step_well_kept (w w' : World) :
  well_kept w -> step t w w' ->
  well_kept w' /\ (initialized (refs w) -> initialized (refs w')).
Proof.
  intros Hw S. destruct S as [a w|be n w w' E|d w C].
  - apply resume_well_kept; [apply perform_obeys|exact Hw].
  - unfold settle in E. destruct Hw as [Hp Hr].
    destruct (take_parked n (parked w)) as [[j rest]|] eqn:T; [|discriminate].
    destruct (take_parked_Forall _ n _ _ _ Hp T) as [Hj Hrest].
    assert (Hw1 : well_kept (with_parked rest w)) by (split; assumption).
    destruct j as [req k|kd r k]; injection E as <-;
      apply (resume_well_kept _ _ (Hj _) Hw1).
  - split; [exact Hw|auto].
Qed.

Lemma useComfyCloudAuthStore_well_kept persisted now :
  well_kept (useComfyCloudAuthStore t persisted now).
Proof.
  unfold useComfyCloudAuthStore.
  assert (H0 : well_kept (initial_world persisted now)).
  { split; constructor. }
  pose proof (advance_park_well_kept (watchToken t persisted)
                (initial_world persisted now) (watchToken_obeys persisted) H0)
    as H.
  cbv zeta in H.
  destruct (advance (watchToken t persisted) (initial_world persisted now)).
  apply H.
Qed.

Lemma steps_well_kept (w w' : World) :
  clos_refl_trans World (step t) w w' ->
  well_kept w ->
  well_kept w' /\ (initialized (refs w) -> initialized (refs w')).
Proof.
  intro S. induction S as [w w' S|w|w w1 w2 S1 IH1 S2 IH2]; intro Hw.
  - apply step_well_kept; assumption.
  - split; auto.
  - destruct (IH1 Hw) as [H1 I1]. destruct (IH2 H1) as [H2 I2].
    split; auto.
Qed.

Lemma reachable_well_kept (w : World) :
  reachable t w -> well_kept w.
Proof.
  intros [persisted [now S]].
  apply (steps_well_kept _ _ S).
  apply useComfyCloudAuthStore_well_kept.
Qed.

(** X13: once the store is initialized it stays initialized: from a
    reachable world in which [isInitialized] is true, no sequence of
    calls, answers and watcher runs, in any interleaving, leads to a
    world in which it is false. *)
Theorem isInitialized_is_stable (w w' : World) :
  reachable t w ->
  clos_refl_trans World (step t) w w' ->
  isInitialized (refs w) = true ->
  isInitialized (refs w') = true.
Proof.
  intros R S H.
  apply (steps_well_kept _ _ S (reachable_well_kept _ R)). exact H.
Qed.

(** X14: whatever is called and however the answers interleave, every
    request the store has issued goes to one of the six endpoints under
    [/api], and a request that carries credentials goes to the endpoint
    they are for: a login body to [/api/auth/login], a register body to
    [/api/auth/register]. *)
Theorem requests_stay_on_the_api (w : World) :
  reachable t w ->
  Forall store_endpoint (requests w).
Proof.
  intro R. apply (reachable_well_kept _ R).
Qed.

End LoopInvariants.

(** ** Flags that are reset *)

(** A synchronous segment only adds to the suspended jobs. *)
Lemma advance_parked {A : Type} (p : Prog A) :
  forall w, exists l, parked (fst (advance p w)) = (parked w ++ l)%list.
Proof.
  induction p as [A a|A e|A k IH|A f k IH|A m k IH|A l e k IH|A k IH
                 |A c IHc k IHk|A req k IH|A kd r k IH];
    intro w; simpl;
    try (exists []; symmetry; apply app_nil_r);
    try apply IH.
  - exact (IH (with_refs (f (refs w)) w)).
  - exact (IH (with_toast m w)).
  - exact (IH (with_console l e w)).
  - destruct (IHc w) as [l1 E1].
    destruct (advance c w) as [w1 st]. simpl in E1.
    destruct (IHk (park st w1)) as [l2 E2]. rewrite E2.
    destruct st; simpl; rewrite E1, <- ?app_assoc; eexists; reflexivity.
Qed.

Lemma take_parked_Exists (Q : Parked -> Prop) n :
  forall l j rest,
    Exists Q l -> take_parked n l = Some (j, rest) -> Q j \/ Exists Q rest.
Proof.
  induction n as [|n IH]; intros [|x l] j rest F E; simpl in E;
    try discriminate.
  - injection E as <- <-. inversion F; subst; auto.
  - destruct (take_parked n l) as [[y rest']|] eqn:T; [|discriminate].
    injection E as <- <-. inversion F; subst.
    + right. constructor. assumption.
    + destruct (IH l y rest' H0 T) as [Qy|Fr]; [left; exact Qy|].
      right. apply Exists_cons_tl. exact Fr.
Qed.

Section Tidiness.

Variable Q : State -> Prop.

Lemma advance_keeps {A : Type} (p : Prog A) :
  forall w, keeps Q p -> Q (refs w) -> Q (refs (fst (advance p w))).
Proof.
  unfold keeps.
  induction p as [A a|A e|A k IH|A f k IH|A m k IH|A l e k IH|A k IH
                 |A c IHc k IHk|A req k IH|A kd r k IH];
    intros w Hp Hq; simpl in *.
  - exact Hq.
  - exact Hq.
  - apply IH; auto.
  - destruct Hp as [Hf Hk].
    apply (IH (with_refs (f (refs w)) w) Hk). simpl. apply Hf. exact Hq.
  - exact (IH (with_toast m w) Hp Hq).
  - exact (IH (with_console l e w) Hp Hq).
  - apply IH; auto.
  - destruct Hp as [Hc Hk]. pose proof (IHc w Hc Hq) as H1.
    destruct (advance c w) as [w1 st]. simpl in H1.
    apply IHk; [exact Hk|]. destruct st; simpl; exact H1.
  - exact Hq.
  - exact Hq.
Qed.

(** After a segment of a program that restores [Q], either [Q] holds or
    the program is suspended with a rest that restores it. *)
Lemma advance_restores {A : Type} (p : Prog A) :
  forall w,
    restores Q p ->
    Q (refs (fst (advance p w))) \/ status_restores Q (snd (advance p w)).
Proof.
  induction p as [A a|A e|A k IH|A f k IH|A m k IH|A l e k IH|A k IH
                 |A c IHc k IHk|A req k IH|A kd r k IH];
    intros w Hr; simpl in *.
  - contradiction.
  - contradiction.
  - apply IH; auto.
  - destruct Hr as [Hr|[Hq Hk]].
    + exact (IH _ Hr).
    + left. apply advance_keeps; [exact Hk|]. simpl. apply Hq.
  - exact (IH (with_toast m w) Hr).
  - exact (IH (with_console l e w) Hr).
  - apply IH; auto.
  - destruct (advance c w) as [w1 st]. apply IHk. exact Hr.
  - right. exact Hr.
  - right. exact Hr.
Qed.

Lemma park_settling (w1 : World) (st : Status unit) :
  settling Q w1 \/ status_restores Q st -> settling Q (park st w1).
Proof.
  intros [[Hq|He]|Hs].
  - left. destruct st; simpl; exact Hq.
  - right. destruct st; simpl; [exact He| |]; apply Exists_app; left; exact He.
  - right. destruct st; simpl; [contradiction| |];
      apply Exists_app; right; constructor; exact Hs.
Qed.

Lemma park_tidy (w1 : World) (st : Status unit) :
  Forall (parked_tidy Q) (parked w1) -> status_tidy Q st ->
  Forall (parked_tidy Q) (parked (park st w1)).
Proof.
  intros Hp Hs. destruct st; simpl; [exact Hp| |];
    apply Forall_app; split; auto.
Qed.

(** A segment of a tidy program leaves the suspended jobs tidy, and if
    [Q] held or was about to be restored, it still holds or is about to
    be restored. *)
Lemma advance_tidy {A : Type} (p : Prog A) :
  forall w,
    tidy Q p -> Forall (parked_tidy Q) (parked w) ->
    Forall (parked_tidy Q) (parked (fst (advance p w)))
    /\ status_tidy Q (snd (advance p w))
    /\ (settling Q w ->
        settling Q (fst (advance p w))
        \/ status_restores Q (snd (advance p w))).
Proof.
  induction p as [A a|A e|A k IH|A f k IH|A m k IH|A l e k IH|A k IH
                 |A c IHc k IHk|A req k IH|A kd r k IH];
    intros w Ht Hp; simpl in *.
  - auto.
  - auto.
  - apply IH; auto.
  - destruct Ht as [Hf Hk].
    destruct (IH (with_refs (f (refs w)) w) Hk Hp) as [H1 [H2 H3]].
    split; [exact H1|]. split; [exact H2|].
    intro Hs. destruct Hf as [Hf|Hr].
    + apply H3. destruct Hs as [Hq|He]; [left; simpl; apply Hf; exact Hq|].
      right. exact He.
    + destruct (advance_restores k (with_refs (f (refs w)) w) Hr) as [Hq|Hs'];
        [left; left; exact Hq|right; exact Hs'].
  - exact (IH (with_toast m w) Ht Hp).
  - exact (IH (with_console l e w) Ht Hp).
  - apply IH; auto.
  - destruct Ht as [Hc Hk].
    destruct (IHc w Hc Hp) as [H1 [H2 H3]].
    destruct (advance c w) as [w1 st]. simpl in *.
    destruct (IHk (park st w1) Hk (park_tidy w1 st H1 H2)) as [K1 [K2 K3]].
    split; [exact K1|]. split; [exact K2|].
    intro Hs. apply K3. apply park_settling. apply H3. exact Hs.
  - split; [exact Hp|]. split; [exact Ht|]. intro Hs. left. exact Hs.
  - split; [exact Hp|]. split; [exact Ht|]. intro Hs. left. exact Hs.
Qed.

End Tidiness.

Section Settling.

Variable t : string -> string.
Variable Q : State -> Prop.

Hypothesis perform_tidy : forall a, tidy Q (perform t a).
Hypothesis watchToken_tidy : forall newToken, tidy Q (watchToken t newToken).
Hypothesis startup :
  forall persisted,
    Q (initial_state persisted) \/ restores Q (watchToken t persisted).

Local Abbreviation in_hand w :=
  (Forall (parked_tidy Q) (parked w) /\ settling Q w).

Lemma advance_park_in_hand (p : Prog unit) (w : World) :
  tidy Q p -> Forall (parked_tidy Q) (parked w) ->
  settling Q w \/ restores Q p ->
  in_hand (park (snd (advance p w)) (fst (advance p w))).
Proof.
  intros Ht Hp Hs.
  destruct (advance_tidy Q p w Ht Hp) as [H1 [H2 H3]].
  split; [apply park_tidy; assumption|].
  apply park_settling. destruct Hs as [Hs|Hr].
  - apply H3. exact Hs.
  - destruct (advance_restores Q p w Hr) as [Hq|Hs];
      [left; left; exact Hq|right; exact Hs].
Qed.

Lemma flushWatcher_in_hand (w : World) :
  in_hand w -> in_hand (flushWatcher t w).
Proof.
  intros [Hp Hs]. unfold flushWatcher.
  destruct (same_token (token (refs w)) (watched w)); [split; assumption|].
  pose proof (advance_park_in_hand (watchToken t (token (refs w)))
                (with_watched (token (refs w)) w)
                (watchToken_tidy (token (refs w))) Hp (or_introl Hs)) as H.
  destruct (advance (watchToken t (token (refs w)))
                    (with_watched (token (refs w)) w)) as [w1 st].
  exact H.
Qed.

Lemma resume_in_hand (p : Prog unit) (w : World) :
  tidy Q p -> Forall (parked_tidy Q) (parked w) ->
  settling Q w \/ restores Q p ->
  in_hand (resume t p w).
Proof.
  intros Ht Hp Hs. unfold resume.
  pose proof (advance_park_in_hand p w Ht Hp Hs) as H.
  destruct (advance p w) as [w1 st]. simpl in H.
  apply flushWatcher_in_hand. exact H.
Qed.

Lemma step_in_hand (w w' : World) :
  in_hand w -> step t w w' -> in_hand w'.
Proof.
  intros [Hp Hs] S. destruct S as [a w|be n w w' E|d w C].
  - apply resume_in_hand; [apply perform_tidy|exact Hp|left; exact Hs].
  - unfold settle in E.
    destruct (take_parked n (parked w)) as [[j rest]|] eqn:T; [|discriminate].
    destruct (take_parked_Forall _ n _ _ _ Hp T) as [Hj Hrest].
    assert (Hs1 : settling Q (with_parked rest w) \/ parked_restores Q j).
    { destruct Hs as [Hq|He]; [left; left; exact Hq|].
      destruct (take_parked_Exists _ n _ _ _ He T) as [Qj|Er];
        [right; exact Qj|left; right; exact Er]. }
    destruct j as [req k|kd r k]; injection E as <-;
      (apply resume_in_hand; [apply Hj|exact Hrest|]);
      (destruct Hs1 as [Hs1|Hs1]; [left; exact Hs1|right; apply Hs1]).
  - split; assumption.
Qed.

Lemma useComfyCloudAuthStore_in_hand persisted now :
  in_hand (useComfyCloudAuthStore t persisted now).
Proof.
  unfold useComfyCloudAuthStore.
  assert (Hs : settling Q (initial_world persisted now)
               \/ restores Q (watchToken t persisted)).
  { destruct (startup persisted) as [Hq|Hr];
      [left; left; exact Hq|right; exact Hr]. }
  pose proof (advance_park_in_hand (watchToken t persisted)
                (initial_world persisted now) (watchToken_tidy persisted)
                (Forall_nil _) Hs) as H.
  destruct (advance (watchToken t persisted) (initial_world persisted now)).
  exact H.
Qed.

(** In every reachable world [Q] holds or a suspended job is about to
    restore it. *)
Lemma reachable_settling (w : World) :
  reachable t w -> settling Q w.
Proof.
  intros [persisted [now S]].
  assert (G : in_hand (useComfyCloudAuthStore t persisted now))
    by apply useComfyCloudAuthStore_in_hand.
  assert (H : in_hand w).
  { revert G.
    induction S as [w w' S|w|w w1 w2 S1 IH1 S2 IH2]; intro G.
    - eapply step_in_hand; eassumption.
    - exact G.
    - apply IH2, IH1, G. }
  apply H.
Qed.

End Settling.

Section IdleStore.

Variable t : string -> string.

Ltac tidy_up :=
  repeat (cbn; intros;
    match goal with
    | |- _ /\ _ => split
    | |- True => exact Logic.I
    | H : ?x = ?b |- ?x = ?b => exact H
    | |- ?b = ?b => reflexivity
    | |- _ \/ ((forall s : State, @?E s) /\ _) =>
        first [right; split; [solve [intros; reflexivity]|] | left]
    | |- (forall s : State, @?K s) \/ _ =>
        first [left; solve [intros; assumption | intros; reflexivity] | right]
    | |- context [if ?c then _ else _] => destruct c
    | |- context [match ?x with _ => _ end] => is_var x; destruct x
    | |- context [match token ?s with _ => _ end] => destruct (token s)
    end).

Ltac unfold_store :=
  unfold perform, login, login_action, register, register_action, logout,
    logout_action, wrapWithErrorHandlingAsync, toastErrorHandler, watchToken,
    fetchUserInfo, fetchBalance, refreshToken, getAuthHeader, getAuthToken,
    fetchWithAuth, void, keeps, initialized, not_loading, not_fetching_balance.

Lemma initialized_tidy :
  (forall a, tidy initialized (perform t a))
  /\ (forall newToken, tidy initialized (watchToken t newToken))
  /\ (forall newToken, restores initialized (watchToken t newToken)).
Proof.
  split; [|split]; [intros [| | | | | | |]|intro|intro]; unfold_store; tidy_up.
Qed.

Lemma not_loading_tidy :
  (forall a, tidy not_loading (perform t a))
  /\ (forall newToken, tidy not_loading (watchToken t newToken)).
Proof.
  split; [intros [| | | | | | |]|intro]; unfold_store; tidy_up.
Qed.

Lemma not_fetching_balance_tidy :
  (forall a, tidy not_fetching_balance (perform t a))
  /\ (forall newToken, tidy not_fetching_balance (watchToken t newToken)).
Proof.
  split; [intros [| | | | | | |]|intro]; unfold_store; tidy_up.
Qed.

(** X15: an idle store is initialized: in every reachable world, under
    any interleaving of calls and answers, if no job is suspended then
    [isInitialized] is true; while it is false, a job that will set it
    on every path is among the suspended ones. *)
Theorem idle_store_is_initialized (w : World) :
  reachable t w ->
  (parked w = [] -> isInitialized (refs w) = true)
  /\ (isInitialized (refs w) = false ->
      Exists (parked_restores initialized) (parked w)).
Proof.
  intro R.
  destruct initialized_tidy as [Ha [Hw Hr]].
  destruct (reachable_settling t initialized Ha Hw
              (fun persisted => or_intror (Hr persisted)) w R) as [Hi|He];
    split.
  - intros _. exact Hi.
  - intro F. unfold initialized in Hi. congruence.
  - intro E. rewrite E in He. inversion He.
  - intros _. exact He.
Qed.

(** X16: an idle store shows nothing in progress: in every reachable
    world, under any interleaving, if no job is suspended then [loading]
    and [isFetchingBalance] are false; while one of them is true, a job
    that will reset it on every path is among the suspended ones. *)
Theorem idle_store_shows_no_activity (w : World) :
  reachable t w ->
  (parked w = [] ->
     loading (refs w) = false /\ isFetchingBalance (refs w) = false)
  /\ (loading (refs w) = true ->
      Exists (parked_restores not_loading) (parked w))
  /\ (isFetchingBalance (refs w) = true ->
      Exists (parked_restores not_fetching_balance) (parked w)).
Proof.
  intro R.
  destruct not_loading_tidy as [La Lw].
  destruct not_fetching_balance_tidy as [Fa Fw].
  pose proof (reachable_settling t not_loading La Lw
                (fun persisted => or_introl eq_refl) w R) as HL.
  pose proof (reachable_settling t not_fetching_balance Fa Fw
                (fun persisted => or_introl eq_refl) w R) as HF.
  unfold settling, not_loading, not_fetching_balance in HL, HF.
  split; [|split].
  - intro E. rewrite E in HL, HF. split.
    + destruct HL as [H|H]; [exact H|inversion H].
    + destruct HF as [H|H]; [exact H|inversion H].
  - intro T. destruct HL as [H|H]; [congruence|exact H].
  - intro T. destruct HF as [H|H]; [congruence|exact H].
Qed.

End IdleStore.

(** ** The widget: dragging stays inside the window *)

Section DragBounds.

Context {num : Type}.
Variable leb : num -> num -> bool.
Variable sub : num -> num -> num.
Variable zero n100 n200 : num.
Variable is_zero : num -> bool.

(** [<=] on the numbers other than NaN is a total preorder. *)
Hypothesis leb_total : forall a b, leb a b = true \/ leb b a = true.
Hypothesis leb_trans :
  forall a b c, leb a b = true -> leb b c = true -> leb a c = true.



(** X18: the edges of a drag.  A pointer move outside a drag changes
    nothing and cannot fail, whatever the event, and so after
    [stopDrag]; a touch event without touches makes [startDrag] fail
    with the drag marked as in progress but no listener set and the
    position and offset untouched, and makes [onDrag] fail during a drag
    with the state untouched. *)
Theorem drag_edge_cases
    (e : Widget.PointerEvent) (v : Widget.Viewport) (d : Widget.Drag) :
  (Widget.isDragging d = false ->
     Widget.onDrag leb sub zero n100 n200 is_zero e v d = (d, Ok tt))
  /\ Widget.onDrag leb sub zero n100 n200 is_zero e v (Widget.stopDrag d)
     = (Widget.stopDrag d, Ok tt)
  /\ (forall err, Widget.client e = Err err ->
        snd (Widget.startDrag sub e d) = Err err
        /\ Widget.isDragging (fst (Widget.startDrag sub e d)) = true
        /\ Widget.listening (fst (Widget.startDrag sub e d))
           = Widget.listening d
        /\ Widget.savedPosition (fst (Widget.startDrag sub e d))
           = Widget.savedPosition d
        /\ Widget.dragOffset (fst (Widget.startDrag sub e d))
           = Widget.dragOffset d
        /\ (Widget.isDragging d = true ->
              Widget.onDrag leb sub zero n100 n200 is_zero e v d
              = (d, Err err))).
Proof.
  unfold Widget.onDrag, Widget.startDrag. repeat split;
    try (rewrite H; reflexivity).
  all: intros; repeat match goal with
                      | H : _ = _ |- _ => rewrite H
                      end; reflexivity.
Qed.

End DragBounds.

(** ** The further properties at concrete inputs *)

Lemma steps_drain (t : string -> string) be n :
  forall w, clos_refl_trans World (step t) w (drain t be n w).
Proof.
  induction n as [|n IH]; intro w; simpl; [apply rt_refl|].
  destruct (settle t be 0 w) as [w'|] eqn:E; [|apply rt_refl].
  eapply rt_trans; [|apply IH]. apply rt_step.
  eapply step_settle. exact E.
Qed.


(** X4 for a fresh store and a backend that hands out ["T2"]. *)
Lemma login_success_witness :
  respond (backend 200 (Some "T2") None) (login_request "alice" "pw")
  = Resolved {| status := 200 |}
  /\ ok {| status := 200 |} = true
  /\ token (refs (fst (run (backend 200 (Some "T2") None)
                           (login key_t "alice" "pw") (initial_world None 0))))
     = Some "T2"
  /\ userTier (refs (fst (run (backend 200 (Some "T2") None)
                              (login key_t "alice" "pw") (initial_world None 0))))
     = Some pro.
Proof.
  split; [reflexivity|]. split; [reflexivity|].
  pose proof (login_success key_t (backend 200 (Some "T2") None) "alice" "pw"
                (initial_world None 0) {| status := 200 |}
                {| LoginResponse.token := "T2"; LoginResponse.user := alice |}
                eq_refl eq_refl eq_refl) as H.
  vm_compute in H. destruct H as [_ [T [_ [U _]]]].
  split; [exact T|exact U].
Defined.

(** X7 at Alice's session: the token is rotated to ["T2"]. *)
Lemma refreshToken_success_witness :
  truthy_string (token (refs alice_session)) = true
  /\ snd (run (backend 200 (Some "T2") None) (refreshToken key_t) alice_session)
     = Ok (Some "T2")
  /\ token (refs (fst (run (backend 200 (Some "T2") None) (refreshToken key_t)
                           alice_session)))
     = Some "T2".
Proof.
  split; [reflexivity|].
  pose proof (refreshToken_success key_t (backend 200 (Some "T2") None)
                alice_session {| status := 200 |}
                {| RefreshData.token := Some "T2" |}
                eq_refl eq_refl eq_refl eq_refl) as H.
  vm_compute in H. destruct H as [R [T _]].
  split; [exact R|]. vm_compute. reflexivity.
Defined.

(** X8 at Alice's session: the refresh answer carries no token. *)
Lemma refreshToken_without_token_signs_out_witness :
  truthy_string (token (refs alice_session)) = true
  /\ truthy_string None = false
  /\ isAuthenticated
       (refs (flushWatcher key_t
                (fst (run (backend 200 None None) (refreshToken key_t)
                          alice_session))))
     = false
  /\ balance
       (refs (flushWatcher key_t
                (fst (run (backend 200 None None) (refreshToken key_t)
                          alice_session))))
     = None.
Proof.
  split; [reflexivity|]. split; [reflexivity|].
  destruct (refreshToken_without_token_signs_out key_t (backend 200 None None)
              alice_session {| status := 200 |}
              {| RefreshData.token := None |}
              eq_refl eq_refl eq_refl eq_refl eq_refl eq_refl)
    as [_ [A [_ [B _]]]].
  split; [exact A|exact B].
Defined.

(** X9 at a fresh store: the login is followed by the profile fetch. *)
Lemma login_triggers_profile_fetch_witness :
  "T2" <> EmptyString
  /\ watched (initial_world None 0) = token (refs (initial_world None 0))
  /\ length (requests
               (flushWatcher key_t
                  (fst (run (backend 200 (Some "T2") None)
                            (login key_t "alice" "pw") (initial_world None 0)))))
     = 3%nat.
Proof.
  assert (N : "T2" <> EmptyString) by (apply String.eqb_neq; reflexivity).
  split; [exact N|]. split; [reflexivity|].
  destruct (login_triggers_profile_fetch key_t (backend 200 (Some "T2") None)
              "alice" "pw" (initial_world None 0) {| status := 200 |}
              {| LoginResponse.token := "T2"; LoginResponse.user := alice |}
              eq_refl eq_refl eq_refl N eq_refl) as [H _].
  assert (D : token (refs (initial_world None 0)) <> Some "T2") by discriminate.
  destruct (H D) as [R _]. rewrite R. reflexivity.
Defined.

(** X13 along the run that ends in the session with the empty token. *)
Lemma isInitialized_is_stable_witness :
  reachable key_t (useComfyCloudAuthStore key_t None 0)
  /\ isInitialized (refs (useComfyCloudAuthStore key_t None 0)) = true
  /\ isInitialized (refs empty_token_session) = true.
Proof.
  assert (R : reachable key_t (useComfyCloudAuthStore key_t None 0))
    by apply reachable_init.
  split; [exact R|]. split; [reflexivity|].
  apply (isInitialized_is_stable key_t (useComfyCloudAuthStore key_t None 0)
           empty_token_session R); [|reflexivity].
  unfold empty_token_session.
  eapply rt_trans; [apply rt_step, step_call|].
  eapply rt_trans; [apply steps_drain|].
  eapply rt_trans; [apply rt_step, step_call|].
  apply steps_drain.
Defined.

(** X14 at the session reached with the late balance answer. *)
Lemma requests_stay_on_the_api_witness :
  reachable key_t late_balance_session
  /\ Forall store_endpoint (requests late_balance_session).
Proof.
  split; [apply late_balance_session_reachable|].
  apply (requests_stay_on_the_api key_t).
  apply late_balance_session_reachable.
Defined.

(** X15 at an idle session. *)
Lemma idle_store_is_initialized_witness :
  reachable key_t empty_token_session
  /\ parked empty_token_session = []
  /\ isInitialized (refs empty_token_session) = true.
Proof.
  split; [apply empty_token_session_reachable|]. split; [reflexivity|].
  apply (idle_store_is_initialized key_t empty_token_session
           empty_token_session_reachable).
  reflexivity.
Defined.

(** X16 at the same idle session. *)
Lemma idle_store_shows_no_activity_witness :
  reachable key_t empty_token_session
  /\ parked empty_token_session = []
  /\ loading (refs empty_token_session) = false
  /\ isFetchingBalance (refs empty_token_session) = false.
Proof.
  split; [apply empty_token_session_reachable|]. split; [reflexivity|].
  apply (idle_store_shows_no_activity key_t empty_token_session
           empty_token_session_reachable).
  reflexivity.
Defined.

